(** * Hover-editor positioning engine (terminal-hover-editor-positioning.ts)

    A shallow embedding of [TerminalHoverEditorPositioning]: the unit
    converter, the per-panel [HoverEditorState], the process-wide batched
    positioner ([sharedUpdate] / [scheduleSharedUpdate]), the drag poll
    ([pollForDrag]) and the pin / cleanup life cycle.

    Conventions of the embedding.
    - JavaScript numbers are exact rationals ([Q]); equality of computed
      pixel values is [Qeq].  The zoom is a non-zero rational wherever a
      division by it has to be undone.
    - Objects with identity (closures, observers, DOM elements, cytoscape
      cores) are natural numbers.  One call of [pinHoverEditorToNode]
      allocates one handle that names every closure and observer created
      by that call; the kind of registration tells them apart.
    - The host (browser and cytoscape) is a table of live registrations, a
      queue of requested animation frames, the inline styles of the
      elements and a log of the DOM accesses made by the engine.
    - What the engine reads from the host at a given moment (zoom,
      rectangles, bounding boxes, the clock) is an [Env]. *)

From Stdlib Require Import List String Bool Arith ZArith QArith Qabs Lia.
From Stdlib Require Import Permutation Qfield.
Import ListNotations.

Set Implicit Arguments.

(** ** Identities *)

Definition CyId := nat.
Definition ElId := nat.
Definition Handle := nat.
Definition TimerId := nat.

(** A cytoscape node handle; [node.cy()] is [node_cy]. *)
Record NodeSingular := { node_id : nat; node_cy : CyId }.

Definition node_eqb (a b : NodeSingular) : bool :=
  Nat.eqb (node_id a) (node_id b) && Nat.eqb (node_cy a) (node_cy b).

(** The part of [renderedBoundingBox()] the engine uses. *)
Record BoundingBox := { x1 : Q; y1 : Q }.

(** The part of a [DOMRect] the engine uses. *)
Record DOMRect := { left : Q; top : Q }.

(** ** Unit converter *)

Definition screenToGraph (screenValue zoom : Q) : Q := screenValue / zoom.

Definition graphToScreen (graphValue zoom : Q) : Q := graphValue * zoom.

(** ** Editor state, in graph units *)

Record HoverEditorState := {
  offsetX : Q;
  offsetY : Q;
  width : Q;
  height : Q
}.

Record TrackedEditor := {
  node : NodeSingular;
  popoverEl : ElId;
  state : Handle;                    (* the state object of the pin call *)
  resizeObserver : Handle;
  mutationObserver : Handle;
  containerResizeObserver : Handle;
  windowResizeHandler : Handle;
  dragPollInterval : TimerId;
  onGraphChange : Handle
}.

(** A JavaScript [Map<string, TrackedEditor>]: iteration follows insertion
    order, [set] on a present key replaces the value in place. *)
Definition TrackingMap := list (string * TrackedEditor).

Fixpoint map_get (k : string) (m : TrackingMap) : option TrackedEditor :=
  match m with
  | [] => None
  | (k', v) :: m' => if String.eqb k k' then Some v else map_get k m'
  end.

Definition map_has (k : string) (m : TrackingMap) : bool :=
  match map_get k m with Some _ => true | None => false end.

Fixpoint map_set (k : string) (v : TrackedEditor) (m : TrackingMap) : TrackingMap :=
  match m with
  | [] => [(k, v)]
  | (k', v') :: m' =>
      if String.eqb k k' then (k', v) :: m' else (k', v') :: map_set k v m'
  end.

Definition map_delete (k : string) (m : TrackingMap) : TrackingMap :=
  filter (fun kv => negb (String.eqb k (fst kv))) m.

Definition map_keys (m : TrackingMap) : list string := map fst m.

Definition map_values (m : TrackingMap) : list TrackedEditor := map snd m.

(** ** The variables captured by the closures of one pin call *)

Record Closure := {
  c_this : nat;                        (* index of the engine in [instances] *)
  c_terminalId : string;
  c_node : NodeSingular;
  c_popoverEl : ElId;
  c_cy : CyId;
  c_state : HoverEditorState;
  c_cachedContainerRect : DOMRect;
  c_lastRectUpdate : Z;
  c_dragPollInterval : option TimerId  (* [let dragPollInterval: number;] *)
}.

Definition with_state (s : HoverEditorState) (c : Closure) : Closure :=
  {| c_this := c_this c; c_terminalId := c_terminalId c; c_node := c_node c;
     c_popoverEl := c_popoverEl c; c_cy := c_cy c; c_state := s;
     c_cachedContainerRect := c_cachedContainerRect c;
     c_lastRectUpdate := c_lastRectUpdate c;
     c_dragPollInterval := c_dragPollInterval c |}.

Definition with_cache (rect : DOMRect) (t : Z) (c : Closure) : Closure :=
  {| c_this := c_this c; c_terminalId := c_terminalId c; c_node := c_node c;
     c_popoverEl := c_popoverEl c; c_cy := c_cy c; c_state := c_state c;
     c_cachedContainerRect := rect;
     c_lastRectUpdate := t;
     c_dragPollInterval := c_dragPollInterval c |}.

(** ** The host *)

(** Inline style of an element.  A length is [Some q] when [parseFloat]
    reads [q] from it (the engine writes [`${q}px`]) and [None] when it is
    empty or not numeric. *)
Record Style := {
  s_position : string;
  s_left : option Q;
  s_top : option Q;
  s_width : option Q;
  s_height : option Q;
  s_zIndex : string
}.

Definition emptyStyle : Style :=
  {| s_position := ""; s_left := None; s_top := None;
     s_width := None; s_height := None; s_zIndex := "" |}.

Inductive StyleProp := PPosition | PLeft | PTop | PWidth | PHeight | PZIndex.

(** DOM and graph-view accesses, in the order the engine makes them. *)
Inductive Event :=
| EvZoom (cy : CyId)
| EvContainerRect (cy : CyId)
| EvNodeBox (n : NodeSingular)
| EvElementRect (el : ElId)
| EvStyleRead (el : ElId) (p : StyleProp)
| EvStyleWrite (el : ElId) (p : StyleProp).

(** Live registrations held by cytoscape, the observers and the window. *)
Inductive Registration :=
| OnViewport (cy : CyId) (h : Handle)
| OnPosition (n : NodeSingular) (h : Handle)
| ResizeObserving (o : Handle) (el : ElId)
| MutationObserving (o : Handle)
| ContainerResizeObserving (o : Handle) (cy : CyId)
| WindowResize (h : Handle)
| Interval (t : TimerId) (h : Handle).

(** What the engine can read from its surroundings at one moment. *)
Record Env := {
  now : Z;
  zoom : CyId -> Q;
  containerRect : CyId -> DOMRect;
  renderedBoundingBox : NodeSingular -> BoundingBox;
  getBoundingClientRect : ElId -> DOMRect;
  offsetWidth : ElId -> Z;
  offsetHeight : ElId -> Z;
  bodyContains : ElId -> bool
}.

(** The static fields of the class, the engines' tracking maps, the heap of
    closures and the host. *)
Record World := {
  instances : list TrackingMap;
  updatePending : bool;
  sharedRAFId : option nat;
  frameCallbacks : list nat;
  nextFrameId : nat;
  closures : Handle -> Closure;
  nextHandle : Handle;
  registrations : list Registration;
  nextTimer : TimerId;
  styles : ElId -> Style;
  domLog : list Event
}.

Definition noClosure : Closure :=
  {| c_this := 0; c_terminalId := "";
     c_node := {| node_id := 0; node_cy := 0%nat |};
     c_popoverEl := 0%nat; c_cy := 0%nat;
     c_state := {| offsetX := 0; offsetY := 0; width := 0; height := 0 |};
     c_cachedContainerRect := {| left := 0; top := 0 |};
     c_lastRectUpdate := 0%Z; c_dragPollInterval := None |}.

(** The process before any engine is constructed; [setInterval] hands out
    positive timer identifiers. *)
Definition initialWorld : World :=
  {| instances := []; updatePending := false; sharedRAFId := None;
     frameCallbacks := []; nextFrameId := 1;
     closures := fun _ => noClosure; nextHandle := 0%nat;
     registrations := []; nextTimer := 1%nat;
     styles := fun _ => emptyStyle; domLog := [] |}.

Definition set_instances (v : list TrackingMap) (w : World) : World :=
  {| instances := v; updatePending := updatePending w;
     sharedRAFId := sharedRAFId w; frameCallbacks := frameCallbacks w;
     nextFrameId := nextFrameId w; closures := closures w;
     nextHandle := nextHandle w; registrations := registrations w;
     nextTimer := nextTimer w; styles := styles w; domLog := domLog w |}.

Definition set_updatePending (v : bool) (w : World) : World :=
  {| instances := instances w; updatePending := v;
     sharedRAFId := sharedRAFId w; frameCallbacks := frameCallbacks w;
     nextFrameId := nextFrameId w; closures := closures w;
     nextHandle := nextHandle w; registrations := registrations w;
     nextTimer := nextTimer w; styles := styles w; domLog := domLog w |}.

Definition set_frames (id : option nat) (q : list nat) (n : nat) (w : World) : World :=
  {| instances := instances w; updatePending := updatePending w;
     sharedRAFId := id; frameCallbacks := q;
     nextFrameId := n; closures := closures w;
     nextHandle := nextHandle w; registrations := registrations w;
     nextTimer := nextTimer w; styles := styles w; domLog := domLog w |}.

Definition set_closures (v : Handle -> Closure) (n : Handle) (w : World) : World :=
  {| instances := instances w; updatePending := updatePending w;
     sharedRAFId := sharedRAFId w; frameCallbacks := frameCallbacks w;
     nextFrameId := nextFrameId w; closures := v;
     nextHandle := n; registrations := registrations w;
     nextTimer := nextTimer w; styles := styles w; domLog := domLog w |}.

Definition set_registrations (v : list Registration) (n : TimerId) (w : World) : World :=
  {| instances := instances w; updatePending := updatePending w;
     sharedRAFId := sharedRAFId w; frameCallbacks := frameCallbacks w;
     nextFrameId := nextFrameId w; closures := closures w;
     nextHandle := nextHandle w; registrations := v;
     nextTimer := n; styles := styles w; domLog := domLog w |}.

Definition set_styles (v : ElId -> Style) (w : World) : World :=
  {| instances := instances w; updatePending := updatePending w;
     sharedRAFId := sharedRAFId w; frameCallbacks := frameCallbacks w;
     nextFrameId := nextFrameId w; closures := closures w;
     nextHandle := nextHandle w; registrations := registrations w;
     nextTimer := nextTimer w; styles := v; domLog := domLog w |}.

Definition record (e : Event) (w : World) : World :=
  {| instances := instances w; updatePending := updatePending w;
     sharedRAFId := sharedRAFId w; frameCallbacks := frameCallbacks w;
     nextFrameId := nextFrameId w; closures := closures w;
     nextHandle := nextHandle w; registrations := registrations w;
     nextTimer := nextTimer w; styles := styles w; domLog := domLog w ++ [e] |}.

(** Point update of a heap or of the style table. *)
Definition upd {A : Type} (f : nat -> A) (k : nat) (v : A) : nat -> A :=
  fun k' => if Nat.eqb k' k then v else f k'.

Definition set_closure (r : Handle) (c : Closure) (w : World) : World :=
  set_closures (upd (closures w) r c) (nextHandle w) w.

(** [this.trackingMap] of the engine at index [this]. *)
Definition trackingMap (this : nat) (w : World) : TrackingMap :=
  nth this (instances w) [].

Fixpoint list_update {A : Type} (i : nat) (v : A) (l : list A) : list A :=
  match l, i with
  | [], _ => []
  | _ :: l', O => v :: l'
  | a :: l', S i' => a :: list_update i' v l'
  end.

Definition set_trackingMap (this : nat) (m : TrackingMap) (w : World) : World :=
  set_instances (list_update this m (instances w)) w.

(** ** Style writes *)

Definition writeStyle (el : ElId) (p : StyleProp) (f : Style -> Style) (w : World) : World :=
  record (EvStyleWrite el p) (set_styles (upd (styles w) el (f (styles w el))) w).

Definition put_position (v : string) (s : Style) : Style :=
  {| s_position := v; s_left := s_left s; s_top := s_top s;
     s_width := s_width s; s_height := s_height s; s_zIndex := s_zIndex s |}.

Definition put_left (v : Q) (s : Style) : Style :=
  {| s_position := s_position s; s_left := Some v; s_top := s_top s;
     s_width := s_width s; s_height := s_height s; s_zIndex := s_zIndex s |}.

Definition put_top (v : Q) (s : Style) : Style :=
  {| s_position := s_position s; s_left := s_left s; s_top := Some v;
     s_width := s_width s; s_height := s_height s; s_zIndex := s_zIndex s |}.

Definition put_width (v : Q) (s : Style) : Style :=
  {| s_position := s_position s; s_left := s_left s; s_top := s_top s;
     s_width := Some v; s_height := s_height s; s_zIndex := s_zIndex s |}.

Definition put_height (v : Q) (s : Style) : Style :=
  {| s_position := s_position s; s_left := s_left s; s_top := s_top s;
     s_width := s_width s; s_height := Some v; s_zIndex := s_zIndex s |}.

Definition put_zIndex (v : string) (s : Style) : Style :=
  {| s_position := s_position s; s_left := s_left s; s_top := s_top s;
     s_width := s_width s; s_height := s_height s; s_zIndex := v |}.

(** ** Batched positioner *)

Record Update := {
  u_popoverEl : ElId;
  u_x : Q;
  u_y : Q;
  u_width : Q;
  u_height : Q
}.

(** The editors of every engine, in the order of [instances] and, inside an
    engine, of insertion into its map. *)
Definition allEditors (w : World) : list TrackedEditor :=
  flat_map map_values (instances w).

(** Body of the read loop: one bounding-box read per editor. *)
Definition readEditor (env : Env) (zoom_ : Q) (containerRect_ : DOMRect)
    (acc : list Update * World) (editor : TrackedEditor) : list Update * World :=
  let '(updates, w) := acc in
  let w := record (EvNodeBox (node editor)) w in
  let nodeBoundingBox := renderedBoundingBox env (node editor) in
  let nodeViewportX := left containerRect_ + x1 nodeBoundingBox in
  let nodeViewportY := top containerRect_ + y1 nodeBoundingBox in
  let st := c_state (closures w (state editor)) in
  let screenOffsetX := graphToScreen (offsetX st) zoom_ in
  let screenOffsetY := graphToScreen (offsetY st) zoom_ in
  (updates ++ [ {| u_popoverEl := popoverEl editor;
                   u_x := nodeViewportX + screenOffsetX;
                   u_y := nodeViewportY + screenOffsetY;
                   u_width := graphToScreen (width st) zoom_;
                   u_height := graphToScreen (height st) zoom_ |} ], w).

(** Body of the write loop: six style writes per update. *)
Definition applyUpdate (w : World) (update : Update) : World :=
  let el := u_popoverEl update in
  let w := writeStyle el PPosition (put_position "fixed") w in
  let w := writeStyle el PLeft (put_left (u_x update)) w in
  let w := writeStyle el PTop (put_top (u_y update)) w in
  let w := writeStyle el PWidth (put_width (u_width update)) w in
  let w := writeStyle el PHeight (put_height (u_height update)) w in
  writeStyle el PZIndex (put_zIndex "1000") w.

Definition sharedUpdate (env : Env) (w : World) : World :=
  match allEditors w with
  | [] => set_updatePending false w
  | firstEditor :: _ =>
      let cy := node_cy (node firstEditor) in
      let zoom_ := zoom env cy in
      let w := record (EvZoom cy) w in
      let containerRect_ := containerRect env cy in
      let w := record (EvContainerRect cy) w in
      let '(updates, w) :=
        fold_left (readEditor env zoom_ containerRect_) (allEditors w) ([], w) in
      let w := fold_left applyUpdate updates w in
      set_updatePending false w
  end.

(** [requestAnimationFrame] queues the callback, which runs [sharedUpdate]. *)
Definition scheduleSharedUpdate (w : World) : World :=
  if updatePending w then w
  else
    let w := set_updatePending true w in
    set_frames (Some (nextFrameId w)) (frameCallbacks w ++ [nextFrameId w])
               (S (nextFrameId w)) w.

(** The next display refresh: every queued callback runs once, in order. *)
Definition runFrame (env : Env) (w : World) : World :=
  let queued := frameCallbacks w in
  let w := set_frames (sharedRAFId w) [] (nextFrameId w) w in
  fold_left (fun w _ => sharedUpdate env w) queued w.

(** ** Registrations: subscribe and unsubscribe *)

Definition register (r : Registration) (w : World) : World :=
  set_registrations (registrations w ++ [r]) (nextTimer w) w.

Definition unregister (drop : Registration -> bool) (w : World) : World :=
  set_registrations (filter (fun r => negb (drop r)) (registrations w))
                    (nextTimer w) w.

(** [cy.off('viewport', h)] *)
Definition is_viewport (cy : CyId) (h : Handle) (r : Registration) : bool :=
  match r with
  | OnViewport cy' h' => Nat.eqb cy' cy && Nat.eqb h' h
  | _ => false
  end.

(** [node.off('position', h)] *)
Definition is_position (n : NodeSingular) (h : Handle) (r : Registration) : bool :=
  match r with
  | OnPosition n' h' => node_eqb n' n && Nat.eqb h' h
  | _ => false
  end.

(** [resizeObserver.disconnect()] *)
Definition is_resizeObserver (o : Handle) (r : Registration) : bool :=
  match r with ResizeObserving o' _ => Nat.eqb o' o | _ => false end.

(** [mutationObserver.disconnect()] *)
Definition is_mutationObserver (o : Handle) (r : Registration) : bool :=
  match r with MutationObserving o' => Nat.eqb o' o | _ => false end.

(** [containerResizeObserver.disconnect()] *)
Definition is_containerResizeObserver (o : Handle) (r : Registration) : bool :=
  match r with ContainerResizeObserving o' _ => Nat.eqb o' o | _ => false end.

(** [window.removeEventListener('resize', h)] *)
Definition is_windowResize (h : Handle) (r : Registration) : bool :=
  match r with WindowResize h' => Nat.eqb h' h | _ => false end.

(** [clearInterval(t)]; [None] is [clearInterval(undefined)], which clears
    nothing. *)
Definition is_interval (t : option TimerId) (r : Registration) : bool :=
  match t, r with
  | Some t, Interval t' _ => Nat.eqb t' t
  | _, _ => false
  end.

(** ** Life cycle *)

(** [new TerminalHoverEditorPositioning()]; the new engine is the last
    element of [instances]. *)
Definition construct (w : World) : World :=
  set_instances (instances w ++ [[]]) w.

(** The method [cleanup(terminalId)]. *)
Definition cleanup (this : nat) (terminalId : string) (w : World) : World :=
  match map_get terminalId (trackingMap this w) with
  | Some trackedEditor =>
      let cy := node_cy (node trackedEditor) in
      let w := unregister (is_viewport cy (onGraphChange trackedEditor)) w in
      let w := unregister (is_position (node trackedEditor) (onGraphChange trackedEditor)) w in
      let w := unregister (is_resizeObserver (resizeObserver trackedEditor)) w in
      let w := unregister (is_mutationObserver (mutationObserver trackedEditor)) w in
      let w := unregister (is_containerResizeObserver (containerResizeObserver trackedEditor)) w in
      let w := unregister (is_windowResize (windowResizeHandler trackedEditor)) w in
      let w := unregister (is_interval (Some (dragPollInterval trackedEditor))) w in
      set_trackingMap this (map_delete terminalId (trackingMap this w)) w
  | None => w
  end.

Definition cleanupAll (this : nat) (w : World) : World :=
  let ids := map_keys (trackingMap this w) in
  fold_left (fun w id => cleanup this id w) ids w.

Definition with_dragPollInterval (t : TimerId) (e : TrackedEditor) : TrackedEditor :=
  {| node := node e; popoverEl := popoverEl e; state := state e;
     resizeObserver := resizeObserver e; mutationObserver := mutationObserver e;
     containerResizeObserver := containerResizeObserver e;
     windowResizeHandler := windowResizeHandler e;
     dragPollInterval := t; onGraphChange := onGraphChange e |}.

(** The state computed by section 1 of [pinHoverEditorToNode]. *)
Definition initialState (env : Env) (node_ : NodeSingular) (popoverEl_ : ElId)
    (cachedContainerRect : DOMRect) : HoverEditorState :=
  let initialZoom := zoom env (node_cy node_) in
  let nodeBoundingBox := renderedBoundingBox env node_ in
  let popoverRect := getBoundingClientRect env popoverEl_ in
  let nodeViewportX := left cachedContainerRect + x1 nodeBoundingBox in
  let nodeViewportY := top cachedContainerRect + y1 nodeBoundingBox in
  let initialScreenOffsetX := left popoverRect - nodeViewportX in
  let initialScreenOffsetY := top popoverRect - nodeViewportY in
  let adjustedHeight := inject_Z (offsetHeight env popoverEl_) * (3 # 2) in
  {| offsetX := screenToGraph initialScreenOffsetX initialZoom;
     offsetY := screenToGraph initialScreenOffsetY initialZoom;
     width := screenToGraph (inject_Z (offsetWidth env popoverEl_)) initialZoom;
     height := screenToGraph adjustedHeight initialZoom |}.

(** [pinHoverEditorToNode].  The source also defines a closure
    [updatePosition] and a local [updatePending]; neither is ever used, so
    they have no counterpart here. *)
Definition pinHoverEditorToNode (env : Env) (this : nat) (terminalId : string)
    (node_ : NodeSingular) (popoverEl_ : ElId) (w : World) : World :=
  let w := if map_has terminalId (trackingMap this w)
           then cleanup this terminalId w else w in
  let cy := node_cy node_ in
  let h := nextHandle w in
  let cachedContainerRect := containerRect env cy in
  let w := record (EvContainerRect cy) w in
  let lastRectUpdate := now env in
  let w := record (EvZoom cy) w in
  let w := record (EvNodeBox node_) w in
  let w := record (EvElementRect popoverEl_) w in
  let state_ := initialState env node_ popoverEl_ cachedContainerRect in
  let w := set_closures
             (upd (closures w) h
                  {| c_this := this; c_terminalId := terminalId;
                     c_node := node_; c_popoverEl := popoverEl_; c_cy := cy;
                     c_state := state_;
                     c_cachedContainerRect := cachedContainerRect;
                     c_lastRectUpdate := lastRectUpdate;
                     c_dragPollInterval := None |})
             (S h) w in
  let trackedEditor :=
    {| node := node_; popoverEl := popoverEl_; state := h;
       resizeObserver := h; mutationObserver := h;
       containerResizeObserver := h; windowResizeHandler := h;
       dragPollInterval := 0%nat; onGraphChange := h |} in
  let w := set_trackingMap this
             (map_set terminalId trackedEditor (trackingMap this w)) w in
  let w := register (ResizeObserving h popoverEl_) w in
  let w := register (MutationObserving h) w in
  let w := register (ContainerResizeObserving h cy) w in
  let w := register (WindowResize h) w in
  let w := scheduleSharedUpdate w in
  let w := register (OnViewport cy h) w in
  let w := register (OnPosition node_ h) w in
  let t := nextTimer w in
  let w := set_registrations (registrations w ++ [Interval t h]) (S t) w in
  (* trackedEditor.dragPollInterval = window.setInterval(pollForDrag, 200) *)
  set_trackingMap this
    (map_set terminalId (with_dragPollInterval t trackedEditor)
             (trackingMap this w)) w.

(** ** Callbacks of the closures of pin call [h] *)

(** The closure [cleanup] run by the mutation observer. *)
Definition closureCleanup (h : Handle) (w : World) : World :=
  let c := closures w h in
  let w := unregister (is_viewport (c_cy c) h) w in
  let w := unregister (is_position (c_node c) h) w in
  let w := unregister (is_resizeObserver h) w in
  let w := unregister (is_mutationObserver h) w in
  let w := unregister (is_containerResizeObserver h) w in
  let w := unregister (is_windowResize h) w in
  let w := unregister (is_interval (c_dragPollInterval c)) w in
  set_trackingMap (c_this c)
    (map_delete (c_terminalId c) (trackingMap (c_this c) w)) w.

Definition onMutation (env : Env) (h : Handle) (w : World) : World :=
  if negb (bodyContains env (c_popoverEl (closures w h)))
  then closureCleanup h w else w.

Definition onGraphChangeCb (h : Handle) (w : World) : World :=
  scheduleSharedUpdate w.

(** Container-resize observer and window-resize handler: refresh the cached
    rectangle, then request a batched pass. *)
Definition refreshRectAndSchedule (env : Env) (h : Handle) (w : World) : World :=
  let c := closures w h in
  let w := record (EvContainerRect (c_cy c)) w in
  let w := set_closure h (with_cache (containerRect env (c_cy c)) (now env) c) w in
  scheduleSharedUpdate w.

Definition getContainerRect (env : Env) (h : Handle) (w : World) : DOMRect * World :=
  let c := closures w h in
  if (now env - c_lastRectUpdate c >? 300)%Z then
    let w := record (EvContainerRect (c_cy c)) w in
    let rect := containerRect env (c_cy c) in
    (rect, set_closure h (with_cache rect (now env) c) w)
  else (c_cachedContainerRect c, w).

(** [parseFloat(v) || 0] *)
Definition parseFloatOrZero (v : option Q) : Q :=
  match v with Some q => q | None => 0 end.

Definition Qgtb (a b : Q) : bool := negb (Qle_bool a b).

Definition pollForDrag (env : Env) (h : Handle) (w : World) : World :=
  let cy := c_cy (closures w h) in
  let zoom_ := zoom env cy in
  let w := record (EvZoom cy) w in
  let '(containerRect_, w) := getContainerRect env h w in
  let c := closures w h in
  let nodeBoundingBox := renderedBoundingBox env (c_node c) in
  let w := record (EvNodeBox (c_node c)) w in
  let nodeViewportX := left containerRect_ + x1 nodeBoundingBox in
  let nodeViewportY := top containerRect_ + y1 nodeBoundingBox in
  let st := c_state c in
  let expectedX := nodeViewportX + graphToScreen (offsetX st) zoom_ in
  let expectedY := nodeViewportY + graphToScreen (offsetY st) zoom_ in
  let actualX := parseFloatOrZero (s_left (styles w (c_popoverEl c))) in
  let w := record (EvStyleRead (c_popoverEl c) PLeft) w in
  let actualY := parseFloatOrZero (s_top (styles w (c_popoverEl c))) in
  let w := record (EvStyleRead (c_popoverEl c) PTop) w in
  let threshold := 2 in
  let dx := actualX - expectedX in
  let dy := actualY - expectedY in
  if Qgtb (Qabs dx) threshold || Qgtb (Qabs dy) threshold then
    set_closure h
      (with_state {| offsetX := offsetX st + screenToGraph dx zoom_;
                     offsetY := offsetY st + screenToGraph dy zoom_;
                     width := width st; height := height st |} c) w
  else w.

(** The size-change observer; an entry is a content rectangle
    [(width, height)]. *)
Definition onResize (env : Env) (h : Handle) (entries : list (Q * Q)) (w : World) : World :=
  fold_left
    (fun w entry =>
       let c := closures w h in
       let zoom_ := zoom env (c_cy c) in
       let w := record (EvZoom (c_cy c)) w in
       let st := c_state c in
       set_closure h
         (with_state {| offsetX := offsetX st; offsetY := offsetY st;
                        width := screenToGraph (fst entry) zoom_;
                        height := screenToGraph (snd entry) zoom_ |} c) w)
    entries w.

(** ** Host events *)

(** Run [cb] for every live registration selected by [sel], over the table
    as it stands when the event is delivered. *)
Definition dispatch (sel : Registration -> option Handle)
    (cb : Handle -> World -> World) (w : World) : World :=
  fold_left (fun w r => match sel r with Some h => cb h w | None => w end)
            (registrations w) w.

Inductive Op :=
| Construct
| Pin (this : nat) (terminalId : string) (n : NodeSingular) (el : ElId)
| Cleanup (this : nat) (terminalId : string)
| CleanupAll (this : nat)
| Frame
| TimerFires (t : TimerId)
| ViewportChanged (cy : CyId)
| NodeMoved (n : NodeSingular)
| ElementResized (el : ElId) (entries : list (Q * Q))
| DocumentMutated
| ContainerResized (cy : CyId)
| WindowResized
| UserMoves (el : ElId) (x y : Q).

(** A drag library or the user sets the panel's [left] and [top]. *)
Definition userMoves (el : ElId) (x y : Q) (w : World) : World :=
  set_styles (upd (styles w) el (put_top y (put_left x (styles w el)))) w.

Definition step (env : Env) (op : Op) (w : World) : World :=
  match op with
  | Construct => construct w
  | Pin this terminalId n el => pinHoverEditorToNode env this terminalId n el w
  | Cleanup this terminalId => cleanup this terminalId w
  | CleanupAll this => cleanupAll this w
  | Frame => runFrame env w
  | TimerFires t =>
      dispatch (fun r => match r with
                         | Interval t' h => if Nat.eqb t' t then Some h else None
                         | _ => None end)
               (pollForDrag env) w
  | ViewportChanged cy =>
      dispatch (fun r => match r with
                         | OnViewport cy' h => if Nat.eqb cy' cy then Some h else None
                         | _ => None end)
               onGraphChangeCb w
  | NodeMoved n =>
      dispatch (fun r => match r with
                         | OnPosition n' h => if node_eqb n' n then Some h else None
                         | _ => None end)
               onGraphChangeCb w
  | ElementResized el entries =>
      dispatch (fun r => match r with
                         | ResizeObserving o el' => if Nat.eqb el' el then Some o else None
                         | _ => None end)
               (fun h => onResize env h entries) w
  | DocumentMutated =>
      dispatch (fun r => match r with MutationObserving o => Some o | _ => None end)
               (onMutation env) w
  | ContainerResized cy =>
      dispatch (fun r => match r with
                         | ContainerResizeObserving o cy' => if Nat.eqb cy' cy then Some o else None
                         | _ => None end)
               (refreshRectAndSchedule env) w
  | WindowResized =>
      dispatch (fun r => match r with WindowResize h => Some h | _ => None end)
               (refreshRectAndSchedule env) w
  | UserMoves el x y => userMoves el x y w
  end.

(** A run: each event comes with what the surroundings look like then. *)
Definition run (evs : list (Env * Op)) (w : World) : World :=
  fold_left (fun w eo => step (fst eo) (snd eo) w) evs w.

(** ** Classification of the logged accesses *)

Definition is_geometry_read (e : Event) : bool :=
  match e with
  | EvZoom _ | EvContainerRect _ | EvNodeBox _ | EvElementRect _ => true
  | _ => false
  end.

Definition is_dom_write (e : Event) : bool :=
  match e with EvStyleWrite _ _ => true | _ => false end.

Definition allStyleProps : list StyleProp :=
  [PPosition; PLeft; PTop; PWidth; PHeight; PZIndex].

(** The update the read loop computes for one editor. *)
Definition updateFor (env : Env) (zoom_ : Q) (containerRect_ : DOMRect)
    (heap : Handle -> Closure) (editor : TrackedEditor) : Update :=
  let st := c_state (heap (state editor)) in
  {| u_popoverEl := popoverEl editor;
     u_x := left containerRect_ + x1 (renderedBoundingBox env (node editor))
            + graphToScreen (offsetX st) zoom_;
     u_y := top containerRect_ + y1 (renderedBoundingBox env (node editor))
            + graphToScreen (offsetY st) zoom_;
     u_width := graphToScreen (width st) zoom_;
     u_height := graphToScreen (height st) zoom_ |}.

(** The style an update leaves on its element. *)
Definition styleOf (u : Update) : Style :=
  {| s_position := "fixed"; s_left := Some (u_x u); s_top := Some (u_y u);
     s_width := Some (u_width u); s_height := Some (u_height u);
     s_zIndex := "1000" |}.

Definition log_app (evs : list Event) (w : World) : World :=
  {| instances := instances w; updatePending := updatePending w;
     sharedRAFId := sharedRAFId w; frameCallbacks := frameCallbacks w;
     nextFrameId := nextFrameId w; closures := closures w;
     nextHandle := nextHandle w; registrations := registrations w;
     nextTimer := nextTimer w; styles := styles w; domLog := domLog w ++ evs |}.

(** The six style writes of one update, and the accesses of one pass. *)
Definition writesOf (u : Update) : list Event :=
  map (EvStyleWrite (u_popoverEl u)) allStyleProps.

Definition passReads (w : World) : list Event :=
  match allEditors w with
  | [] => []
  | firstEditor :: _ =>
      EvZoom (node_cy (node firstEditor))
      :: EvContainerRect (node_cy (node firstEditor))
      :: map (fun e => EvNodeBox (node e)) (allEditors w)
  end.

Definition passUpdates (env : Env) (w : World) : list Update :=
  match allEditors w with
  | [] => []
  | firstEditor :: _ =>
      let cy := node_cy (node firstEditor) in
      map (updateFor env (zoom env cy) (containerRect env cy) (closures w))
          (allEditors w)
  end.


(** The frame queue agrees with the pending flag. *)
Definition queueConsistent (w : World) : Prop :=
  List.length (frameCallbacks w) = (if updatePending w then 1 else 0)%nat.

(** ** Reachable worlds and their invariants *)

(** The registrations one tracked editor holds in the host. *)
Definition footprint (e : TrackedEditor) : list Registration :=
  [ ResizeObserving (resizeObserver e) (popoverEl e);
    MutationObserving (mutationObserver e);
    ContainerResizeObserving (containerResizeObserver e) (node_cy (node e));
    WindowResize (windowResizeHandler e);
    OnViewport (node_cy (node e)) (onGraphChange e);
    OnPosition (node e) (onGraphChange e);
    Interval (dragPollInterval e) (state e) ].

(** A method can only be called on an engine that has been constructed. *)
Definition callable (w : World) (op : Op) : Prop :=
  match op with
  | Pin this _ _ _ => (this < List.length (instances w))%nat
  | _ => True
  end.

Inductive ReachableVia (allowed : Op -> Prop) : World -> Prop :=
| reach_init : ReachableVia allowed initialWorld
| reach_step (env : Env) (op : Op) (w : World) :
    ReachableVia allowed w -> allowed op -> callable w op ->
    ReachableVia allowed (step env op w).

(** Any sequence of calls and host events. *)
Definition Reachable : World -> Prop := ReachableVia (fun _ => True).

(** Sequences in which the removal observer never fires. *)
Definition notRemoval (op : Op) : Prop := op <> DocumentMutated.

Definition ReachableByPinUnpin : World -> Prop := ReachableVia notRemoval.

(** The captured variables that no callback assigns. *)
Definition identity (c : Closure) :=
  (c_this c, c_terminalId c, c_node c, c_popoverEl c, c_cy c, c_dragPollInterval c).

(** The editor stored under [id] in engine [this] is the one its pin call
    built, and its closures captured that call's arguments. *)
Definition editorCoherent (w : World) (this : nat) (id : string) (e : TrackedEditor) : Prop :=
  resizeObserver e = state e /\ mutationObserver e = state e /\
  containerResizeObserver e = state e /\ windowResizeHandler e = state e /\
  onGraphChange e = state e /\
  (state e < nextHandle w)%nat /\
  (0 < dragPollInterval e)%nat /\ (dragPollInterval e < nextTimer w)%nat /\
  identity (closures w (state e)) =
    (this, id, node e, popoverEl e, node_cy (node e), None).

Definition WellFormed (w : World) : Prop :=
  (forall this, NoDup (map_keys (trackingMap this w))) /\
  (forall this id e, In (id, e) (trackingMap this w) -> editorCoherent w this id e) /\
  (forall this1 id1 e1 this2 id2 e2,
     In (id1, e1) (trackingMap this1 w) -> In (id2, e2) (trackingMap this2 w) ->
     dragPollInterval e1 = dragPollInterval e2 -> state e1 = state e2) /\
  (0 < nextTimer w)%nat /\
  queueConsistent w.

(** No registration is live except those of the tracked editors, each
    exactly once. *)
Definition Tidy (w : World) : Prop :=
  Permutation (registrations w) (flat_map footprint (allEditors w)).

(** Every tracked editor follows a node of the same graph view. *)
Definition sharedGraphView (w : World) : Prop :=
  forall e1 e2, In e1 (allEditors w) -> In e2 (allEditors w) ->
                node_cy (node e1) = node_cy (node e2).

(** No two tracked editors position the same element. *)
Definition distinctPanels (w : World) : Prop :=
  NoDup (map popoverEl (allEditors w)).

(** What relates two worlds when neither the tracking maps, nor the
    registrations, nor the allocation counters, nor the captured constants
    differ. *)
Definition sameShape (w w' : World) : Prop :=
  instances w' = instances w /\
  registrations w' = registrations w /\
  nextHandle w' = nextHandle w /\
  nextTimer w' = nextTimer w /\
  (forall h, identity (closures w' h) = identity (closures w h)).

(** A callback is quiet when it keeps the shape of the world and the
    agreement between the frame queue and the pending flag. *)
Definition Quiet (w w' : World) : Prop :=
  sameShape w w' /\ (queueConsistent w -> queueConsistent w').

(** The editor a pin call stores, once its timer is started. *)
Definition pinnedEditor (n : NodeSingular) (el : ElId) (h : Handle) (t : TimerId) : TrackedEditor :=
  {| node := n; popoverEl := el; state := h;
     resizeObserver := h; mutationObserver := h;
     containerResizeObserver := h; windowResizeHandler := h;
     dragPollInterval := t; onGraphChange := h |}.

(** The variables a pin call captures. *)
Definition pinnedClosure (env : Env) (this : nat) (id : string)
    (n : NodeSingular) (el : ElId) : Closure :=
  {| c_this := this; c_terminalId := id; c_node := n; c_popoverEl := el;
     c_cy := node_cy n;
     c_state := initialState env n el (containerRect env (node_cy n));
     c_cachedContainerRect := containerRect env (node_cy n);
     c_lastRectUpdate := now env;
     c_dragPollInterval := None |}.

Definition isConstruct (op : Op) : bool :=
  match op with Construct => true | _ => false end.

(** Number of engines constructed during a run. *)
Definition constructions (evs : list (Env * Op)) : nat :=
  List.length (filter (fun eo => isConstruct (snd eo)) evs).

(** The registrations the method [cleanup] removes for an editor. *)
Definition dropped (e : TrackedEditor) (r : Registration) : bool :=
  is_viewport (node_cy (node e)) (onGraphChange e) r
  || is_position (node e) (onGraphChange e) r
  || is_resizeObserver (resizeObserver e) r
  || is_mutationObserver (mutationObserver e) r
  || is_containerResizeObserver (containerResizeObserver e) r
  || is_windowResize (windowResizeHandler e) r
  || is_interval (Some (dragPollInterval e)) r.

(** The closure or observer a registration belongs to. *)
Definition registrationHandle (r : Registration) : Handle :=
  match r with
  | OnViewport _ h | OnPosition _ h | ResizeObserving h _ | MutationObserving h
  | ContainerResizeObserving h _ | WindowResize h | Interval _ h => h
  end.

(** ** A sample session

    One engine, one panel (element 5) pinned to a node on graph view 0.
    The container sits at (30, 40), the node's box starts at (20, 10)
    inside it, so the node's viewport origin is (50, 50); the panel is put
    at (60, 70), that is at (10, 20) from the node. *)

Definition sampleNode : NodeSingular := {| node_id := 7; node_cy := 0%nat |}.

Definition sampleEnv (zoom_ : Q) (t : Z) (attached : bool) : Env :=
  {| now := t;
     zoom := fun _ => zoom_;
     containerRect := fun _ => {| left := 30; top := 40 |};
     renderedBoundingBox := fun _ => {| x1 := 20; y1 := 10 |};
     getBoundingClientRect := fun _ => {| left := 60; top := 70 |};
     offsetWidth := fun _ => 200%Z;
     offsetHeight := fun _ => 100%Z;
     bodyContains := fun _ => attached |}.

Definition sampleEngine : World := construct initialWorld.

Definition samplePinned : World :=
  run [(sampleEnv 1 0 true, Construct);
       (sampleEnv 1 0 true, Pin 0 "terminal-1" sampleNode 5%nat)] initialWorld.

Definition samplePositioned : World :=
  run [(sampleEnv 1 16 true, Frame)] samplePinned.

Definition sampleDragged : World :=
  run [(sampleEnv 1 100 true, UserMoves 5%nat 100 100)] samplePositioned.

(** The panel's element leaves the document and the removal observer
    fires. *)
Definition sampleRemoved : World :=
  run [(sampleEnv 1 120 false, DocumentMutated)] samplePositioned.

Definition sampleEditor : TrackedEditor := pinnedEditor sampleNode 5%nat 0%nat 1%nat.

(** Executable check that a run only pins on constructed engines and uses
    permitted operations. *)
Definition callableb (w : World) (op : Op) : bool :=
  match op with
  | Pin this _ _ _ => Nat.ltb this (List.length (instances w))
  | _ => true
  end.

Definition notRemovalb (op : Op) : bool :=
  match op with DocumentMutated => false | _ => true end.

Fixpoint runnable (allowedb : Op -> bool) (evs : list (Env * Op)) (w : World) : bool :=
  match evs with
  | [] => true
  | (env, op) :: evs' =>
      allowedb op && callableb w op && runnable allowedb evs' (step env op w)
  end.

(** ** What the drag poll compares

    The position the poll expects for the panel of pin call [h], computed
    as [pollForDrag] does (container rectangle through the cache), and the
    position it reads from the element's inline style. *)

Definition expectedPosition (env : Env) (h : Handle) (w : World) : Q * Q :=
  let c := closures w h in
  let rect := fst (getContainerRect env h w) in
  let z := zoom env (c_cy c) in
  (left rect + x1 (renderedBoundingBox env (c_node c))
     + graphToScreen (offsetX (c_state c)) z,
   top rect + y1 (renderedBoundingBox env (c_node c))
     + graphToScreen (offsetY (c_state c)) z).

Definition actualPosition (h : Handle) (w : World) : Q * Q :=
  let c := closures w h in
  (parseFloatOrZero (s_left (styles w (c_popoverEl c))),
   parseFloatOrZero (s_top (styles w (c_popoverEl c)))).

(** ** A session with two graph views

    Panel 5 follows a node of view 0 (zoom 1, container at (30, 40));
    panel 6 follows a node of view 1 (zoom 2, container at (500, 40)). *)

Definition sampleNode2 : NodeSingular := {| node_id := 8; node_cy := 1%nat |}.

Definition twoViewEnv (t : Z) : Env :=
  {| now := t;
     zoom := fun cy => if Nat.eqb cy 0 then 1 else 2;
     containerRect := fun cy => if Nat.eqb cy 0 then {| left := 30; top := 40 |}
                                else {| left := 500; top := 40 |};
     renderedBoundingBox := fun _ => {| x1 := 20; y1 := 10 |};
     getBoundingClientRect := fun el => if Nat.eqb el 5 then {| left := 60; top := 70 |}
                                        else {| left := 540; top := 90 |};
     offsetWidth := fun _ => 200%Z;
     offsetHeight := fun _ => 100%Z;
     bodyContains := fun _ => true |}.

Definition sampleTwoViews : World :=
  run [(twoViewEnv 0, Construct);
       (twoViewEnv 0, Pin 0 "terminal-1" sampleNode 5%nat);
       (twoViewEnv 0, Pin 0 "terminal-2" sampleNode2 6%nat)] initialWorld.

Definition sampleEditor2 : TrackedEditor := pinnedEditor sampleNode2 6%nat 1%nat 2%nat.

(** The host events whose handlers request a batched pass for editor [e]:
    a viewport change of its graph view, a move of its node, a resize of
    its view's container and a resize of the window. *)
Definition notifies (e : TrackedEditor) (op : Op) : Prop :=
  op = ViewportChanged (node_cy (node e)) \/ op = NodeMoved (node e) \/
  op = ContainerResized (node_cy (node e)) \/ op = WindowResized.

(** A callback that only requests a pass: it may refresh a cache, but it
    keeps every editor state and every style and leaves the flag set. *)
Definition requestsPass (cb : Handle -> World -> World) : Prop :=
  forall h a,
    Quiet a (cb h a) /\
    (forall h', c_state (closures (cb h a) h') = c_state (closures a h')) /\
    styles (cb h a) = styles a /\
    updatePending (cb h a) = true.

(** ** Sessions in which a tick and the following pass disagree

    [sampleMovedEnv]: the surroundings of the sample session after the
    container has moved from (30, 40) to (100, 40) without any resize
    event, so that a cache filled before the move is out of date. *)

Definition sampleMovedEnv (t : Z) : Env :=
  {| now := t;
     zoom := fun _ => 1;
     containerRect := fun _ => {| left := 100; top := 40 |};
     renderedBoundingBox := fun _ => {| x1 := 20; y1 := 10 |};
     getBoundingClientRect := fun _ => {| left := 60; top := 70 |};
     offsetWidth := fun _ => 200%Z;
     offsetHeight := fun _ => 100%Z;
     bodyContains := fun _ => true |}.



(** ** An invariant of every run, removals included

    Every registration of every tracked editor is live, and no closure has
    ever assigned its local [dragPollInterval]. *)
Definition Live (w : World) : Prop :=
  (forall this id e r,
     In (id, e) (trackingMap this w) -> In r (footprint e) ->
     In r (registrations w)) /\
  (forall h, c_dragPollInterval (closures w h) = None).
(** ** Basic facts *)

Lemma upd_same {A : Type} (f : nat -> A) k v : upd f k v k = v.
Proof. unfold upd. now rewrite Nat.eqb_refl. Qed.

Lemma upd_other {A : Type} (f : nat -> A) k v k' : k' <> k -> upd f k v k' = f k'.
Proof.
  intros Hne. unfold upd. destruct (Nat.eqb_spec k' k); [contradiction | reflexivity].
Qed.

(** Converting to graph units and back gives the screen value again. *)
Lemma graphToScreen_screenToGraph (s z : Q) :
  ~ z == 0 -> graphToScreen (screenToGraph s z) z == s.
Proof. intros Hz. unfold graphToScreen, screenToGraph. field. exact Hz. Qed.

Lemma fold_left_invariant {A B : Type} (P : A -> Prop) (f : A -> B -> A) l :
  (forall a b, P a -> P (f a b)) -> forall a, P a -> P (fold_left f l a).
Proof.
  intros Hstep. induction l as [|b l IH]; intros a Ha; simpl; auto.
Qed.

Lemma record_log_app e w : record e w = log_app [e] w.
Proof. reflexivity. Qed.

Lemma log_app_app evs1 evs2 w : log_app evs2 (log_app evs1 w) = log_app (evs1 ++ evs2) w.
Proof. unfold log_app; simpl. now rewrite app_assoc. Qed.

(** *** The read loop *)

Lemma read_loop env z cr es : forall us w,
  fold_left (readEditor env z cr) es (us, w) =
  (us ++ map (updateFor env z cr (closures w)) es,
   log_app (map (fun e => EvNodeBox (node e)) es) w).
Proof.
  induction es as [|e es IH]; intros us w; simpl.
  - rewrite app_nil_r. unfold log_app. rewrite app_nil_r. now destruct w.
  - rewrite IH. simpl. rewrite <- app_assoc. simpl.
    rewrite record_log_app, log_app_app. reflexivity.
Qed.

(** *** The write loop *)


Lemma applyUpdate_log w u : domLog (applyUpdate w u) = domLog w ++ writesOf u.
Proof.
  unfold applyUpdate, writeStyle, writesOf; simpl.
  repeat rewrite <- app_assoc. reflexivity.
Qed.

Lemma applyUpdate_style_same w u : styles (applyUpdate w u) (u_popoverEl u) = styleOf u.
Proof.
  unfold applyUpdate, writeStyle; simpl. repeat rewrite upd_same. reflexivity.
Qed.

Lemma applyUpdate_style_other w u el :
  el <> u_popoverEl u -> styles (applyUpdate w u) el = styles w el.
Proof.
  intros Hne. unfold applyUpdate, writeStyle; simpl.
  repeat rewrite (upd_other _ _ Hne). reflexivity.
Qed.

Lemma write_loop_log us : forall w,
  domLog (fold_left applyUpdate us w) = domLog w ++ flat_map writesOf us.
Proof.
  induction us as [|u us IH]; intros w; simpl.
  - now rewrite app_nil_r.
  - rewrite IH, applyUpdate_log. now rewrite <- app_assoc.
Qed.

Lemma write_loop_untouched us el : forall w,
  ~ In el (map u_popoverEl us) ->
  styles (fold_left applyUpdate us w) el = styles w el.
Proof.
  induction us as [|u us IH]; intros w Hnot; simpl; [reflexivity|].
  simpl in Hnot. rewrite IH by tauto.
  apply applyUpdate_style_other. intros ->. tauto.
Qed.

Lemma write_loop_last us1 u us2 w :
  ~ In (u_popoverEl u) (map u_popoverEl us2) ->
  styles (fold_left applyUpdate (us1 ++ u :: us2) w) (u_popoverEl u) = styleOf u.
Proof.
  intros Hnot. rewrite fold_left_app. simpl.
  rewrite write_loop_untouched by assumption.
  apply applyUpdate_style_same.
Qed.

(** Fields the write loop leaves alone. *)
Lemma write_loop_frame us : forall w,
  let w' := fold_left applyUpdate us w in
  instances w' = instances w /\ updatePending w' = updatePending w /\
  sharedRAFId w' = sharedRAFId w /\ frameCallbacks w' = frameCallbacks w /\
  nextFrameId w' = nextFrameId w /\ closures w' = closures w /\
  nextHandle w' = nextHandle w /\ registrations w' = registrations w /\
  nextTimer w' = nextTimer w.
Proof.
  induction us as [|u us IH]; intros w; simpl.
  - repeat split.
  - specialize (IH (applyUpdate w u)). simpl in IH.
    repeat match goal with H : _ /\ _ |- _ => destruct H as [? H] end.
    repeat split; etransitivity; try eassumption; reflexivity.
Qed.

(** *** The batched pass, as one equation *)



Lemma sharedUpdate_eq env w :
  sharedUpdate env w =
  set_updatePending false
    (fold_left applyUpdate (passUpdates env w) (log_app (passReads w) w)).
Proof.
  unfold sharedUpdate, passUpdates, passReads.
  destruct (allEditors w) as [|f es] eqn:E.
  - simpl. unfold log_app. rewrite app_nil_r. now destruct w.
  - assert (Hall : allEditors (record (EvContainerRect (node_cy (node f)))
                                 (record (EvZoom (node_cy (node f))) w))
                   = f :: es) by exact E.
    rewrite Hall. rewrite read_loop. simpl app.
    rewrite !record_log_app, !log_app_app. reflexivity.
Qed.

Lemma passReads_are_reads w : forallb is_geometry_read (passReads w) = true.
Proof.
  unfold passReads. destruct (allEditors w) as [|f es]; [reflexivity|].
  cbn [forallb is_geometry_read andb]. apply forallb_forall.
  intros x Hx. apply in_map_iff in Hx. destruct Hx as [e [<- _]]. reflexivity.
Qed.

Lemma writes_are_writes us : forallb is_dom_write (flat_map writesOf us) = true.
Proof.
  apply forallb_forall. intros x Hx. apply in_flat_map in Hx.
  destruct Hx as [u [_ Hx]]. unfold writesOf in Hx.
  apply in_map_iff in Hx. destruct Hx as [p [<- _]]. reflexivity.
Qed.

Lemma sharedUpdate_log env w :
  domLog (sharedUpdate env w) =
  domLog w ++ passReads w ++ flat_map writesOf (passUpdates env w).
Proof.
  rewrite sharedUpdate_eq. cbn [domLog set_updatePending].
  rewrite write_loop_log. cbn [domLog log_app]. now rewrite app_assoc.
Qed.

Lemma passUpdates_elements env w :
  map u_popoverEl (passUpdates env w) = map popoverEl (allEditors w).
Proof.
  unfold passUpdates. destruct (allEditors w) as [|f es]; [reflexivity|].
  rewrite map_map. reflexivity.
Qed.

Lemma in_writes_iff el p us :
  In (EvStyleWrite el p) (flat_map writesOf us) <-> In el (map u_popoverEl us).
Proof.
  rewrite in_flat_map. split.
  - intros [u [Hu Hin]]. unfold writesOf in Hin. apply in_map_iff in Hin.
    destruct Hin as [q [Heq _]]. inversion Heq; subst.
    apply in_map. exact Hu.
  - intros Hin. apply in_map_iff in Hin. destruct Hin as [u [<- Hu]].
    exists u. split; [exact Hu|]. unfold writesOf. apply in_map.
    destruct p; simpl; tauto.
Qed.

(** C3. Read/write separation: the accesses of one batched pass split into
    a block of geometry reads followed by a block of style writes.  The
    reads contain the zoom and the container rectangle of the first
    editor's graph view and the bounding box of every tracked node; the
    writes contain every one of the six style properties of every tracked
    panel.  Hence no write, to any panel, comes before any read. *)
Theorem sharedUpdate_reads_precede_writes (env : Env) (w : World) :
  exists reads writes,
    domLog (sharedUpdate env w) = domLog w ++ reads ++ writes /\
    forallb is_geometry_read reads = true /\
    forallb is_dom_write writes = true /\
    (forall f rest, allEditors w = f :: rest ->
       In (EvZoom (node_cy (node f))) reads /\
       In (EvContainerRect (node_cy (node f))) reads) /\
    (forall e, In e (allEditors w) ->
       In (EvNodeBox (node e)) reads /\
       forall p, In (EvStyleWrite (popoverEl e) p) writes).
Proof.
  exists (passReads w), (flat_map writesOf (passUpdates env w)).
  split; [apply sharedUpdate_log|].
  split; [apply passReads_are_reads|].
  split; [apply writes_are_writes|].
  split.
  - intros f rest E. unfold passReads. rewrite E. simpl. tauto.
  - intros e He. split.
    + unfold passReads. destruct (allEditors w) as [|f es] eqn:E; [contradiction|].
      right. right. apply (in_map (fun e => EvNodeBox (node e))). exact He.
    + intros p. apply in_writes_iff. rewrite passUpdates_elements.
      apply in_map. exact He.
Qed.

(** *** Tracking-map facts *)

Lemma nth_list_update {A : Type} (d : A) v : forall l i,
  nth i (list_update i v l) d = if Nat.ltb i (List.length l) then v else d.
Proof.
  induction l as [|a l IH]; intros [|i]; simpl; try reflexivity.
  rewrite IH. reflexivity.
Qed.

Lemma nth_list_update_other {A : Type} (d : A) v : forall l i j,
  i <> j -> nth j (list_update i v l) d = nth j l d.
Proof.
  induction l as [|a l IH]; intros [|i] [|j] Hne; simpl; try reflexivity.
  - contradiction.
  - apply IH. congruence.
Qed.

Lemma length_list_update {A : Type} (v : A) : forall l i,
  List.length (list_update i v l) = List.length l.
Proof.
  induction l as [|a l IH]; intros [|i]; simpl; try reflexivity.
  now rewrite IH.
Qed.

Lemma map_get_delete_same id m : map_get id (map_delete id m) = None.
Proof.
  induction m as [|[k v] m IH]; simpl; [reflexivity|].
  destruct (String.eqb id k) eqn:E; simpl; [exact IH|].
  rewrite E. exact IH.
Qed.

Lemma map_get_nil id : map_get id [] = None.
Proof. reflexivity. Qed.

Lemma cleanup_removes this id w :
  map_get id (trackingMap this (cleanup this id w)) = None.
Proof.
  unfold cleanup.
  destruct (map_get id (trackingMap this w)) as [e|] eqn:E; [|exact E].
  unfold set_trackingMap, trackingMap at 1. cbn [instances set_instances].
  rewrite nth_list_update.
  destruct (Nat.ltb this _); [apply map_get_delete_same | reflexivity].
Qed.


(** C9. [cleanup] of an identifier that is not in the tracking map returns
    the world as it was: no registration is dropped, no style or state is
    touched, the map is the same. *)
Theorem cleanup_unknown_is_noop (this : nat) (id : string) (w : World) :
  map_has id (trackingMap this w) = false -> cleanup this id w = w.
Proof.
  unfold map_has, cleanup.
  destruct (map_get id (trackingMap this w)); [discriminate | reflexivity].
Qed.

(** C8. A tick of the drag poll leaves the style table as it was and logs
    reads only; in the state of its closure the width and the height are
    unchanged, other closures are untouched, and so are the tracking maps
    and the registrations. *)
Theorem pollForDrag_never_writes_dom (env : Env) (h : Handle) (w : World) :
  styles (pollForDrag env h w) = styles w /\
  (exists accesses,
     domLog (pollForDrag env h w) = domLog w ++ accesses /\
     forallb (fun e => negb (is_dom_write e)) accesses = true) /\
  width (c_state (closures (pollForDrag env h w) h)) = width (c_state (closures w h)) /\
  height (c_state (closures (pollForDrag env h w) h)) = height (c_state (closures w h)) /\
  (forall h', h' <> h -> closures (pollForDrag env h w) h' = closures w h') /\
  instances (pollForDrag env h w) = instances w /\
  registrations (pollForDrag env h w) = registrations w.
Proof.
  unfold pollForDrag, getContainerRect.
  destruct (now env - c_lastRectUpdate (closures (record _ w) h) >? 300)%Z;
    cbv zeta;
    match goal with
    | |- context [if ?b then _ else _] => destruct b
    end;
    cbn [styles domLog closures instances registrations set_closure set_closures
         record with_state with_cache c_state width height];
    rewrite ?upd_same; cbn [c_state with_state with_cache width height];
    (split; [reflexivity|]);
    (split; [eexists; split;
             [repeat rewrite <- app_assoc; reflexivity | reflexivity]|]);
    (split; [reflexivity|]); (split; [reflexivity|]);
    (split; [|split; reflexivity]);
    intros h' Hne; rewrite ?(upd_other _ _ Hne); reflexivity.
Qed.

(** *** Scheduling *)

Lemma schedule_when_pending w :
  updatePending w = true -> scheduleSharedUpdate w = w.
Proof. intros H. unfold scheduleSharedUpdate. now rewrite H. Qed.

Lemma schedule_sets_pending w : updatePending (scheduleSharedUpdate w) = true.
Proof.
  unfold scheduleSharedUpdate. destruct (updatePending w) eqn:E; [exact E | reflexivity].
Qed.

Lemma schedule_idempotent w :
  scheduleSharedUpdate (scheduleSharedUpdate w) = scheduleSharedUpdate w.
Proof. apply schedule_when_pending, schedule_sets_pending. Qed.

Lemma schedule_iter N w :
  (1 <= N)%nat -> Nat.iter N scheduleSharedUpdate w = scheduleSharedUpdate w.
Proof.
  intros HN. destruct N as [|n]; [lia|]. clear HN.
  induction n as [|n IH]; [reflexivity|].
  change (Nat.iter (S (S n)) scheduleSharedUpdate w)
    with (scheduleSharedUpdate (Nat.iter (S n) scheduleSharedUpdate w)).
  rewrite IH. apply schedule_idempotent.
Qed.

Lemma schedule_queue w :
  queueConsistent w ->
  exists id, frameCallbacks (scheduleSharedUpdate w) = [id].
Proof.
  unfold queueConsistent, scheduleSharedUpdate.
  destruct (updatePending w); intros Hq.
  - destruct (frameCallbacks w) as [|id [|? ?]]; try discriminate. now exists id.
  - cbn [frameCallbacks set_frames set_updatePending nextFrameId].
    destruct (frameCallbacks w); [|discriminate]. now eexists.
Qed.

Lemma schedule_frame w :
  instances (scheduleSharedUpdate w) = instances w /\
  closures (scheduleSharedUpdate w) = closures w /\
  registrations (scheduleSharedUpdate w) = registrations w /\
  nextHandle (scheduleSharedUpdate w) = nextHandle w /\
  nextTimer (scheduleSharedUpdate w) = nextTimer w /\
  styles (scheduleSharedUpdate w) = styles w /\
  domLog (scheduleSharedUpdate w) = domLog w.
Proof.
  unfold scheduleSharedUpdate. destruct (updatePending w); repeat split.
Qed.

(** C2. Scheduling coalesces: when the frame queue agrees with the pending
    flag, any number N >= 1 of [scheduleSharedUpdate] calls has the effect
    of one call, leaves exactly one callback queued, and the next frame
    runs [sharedUpdate] exactly once: one block of reads followed by one
    block of writes. *)
Theorem schedule_coalesces (N : nat) (env : Env) (w : World) :
  (1 <= N)%nat ->
  queueConsistent w ->
  Nat.iter N scheduleSharedUpdate w = scheduleSharedUpdate w /\
  updatePending (Nat.iter N scheduleSharedUpdate w) = true /\
  (exists id, frameCallbacks (Nat.iter N scheduleSharedUpdate w) = [id]) /\
  runFrame env (Nat.iter N scheduleSharedUpdate w) =
    sharedUpdate env
      (set_frames (sharedRAFId (scheduleSharedUpdate w)) []
                  (nextFrameId (scheduleSharedUpdate w))
                  (scheduleSharedUpdate w)) /\
  domLog (runFrame env (Nat.iter N scheduleSharedUpdate w)) =
    domLog w ++ passReads w ++ flat_map writesOf (passUpdates env w).
Proof.
  intros HN Hq. rewrite (schedule_iter w HN).
  destruct (schedule_queue Hq) as [id Hid].
  split; [reflexivity|]. split; [apply schedule_sets_pending|].
  split; [now exists id|].
  assert (Hrun : runFrame env (scheduleSharedUpdate w) =
                 sharedUpdate env
                   (set_frames (sharedRAFId (scheduleSharedUpdate w)) []
                      (nextFrameId (scheduleSharedUpdate w))
                      (scheduleSharedUpdate w))).
  { unfold runFrame. rewrite Hid. reflexivity. }
  split; [exact Hrun|].
  rewrite Hrun, sharedUpdate_log.
  destruct (schedule_frame w) as (Hi & Hc & _ & _ & _ & _ & Hl).
  unfold passReads, passUpdates, allEditors.
  cbn [instances closures domLog set_frames].
  rewrite Hi, Hc, Hl. reflexivity.
Qed.

(** *** Quiet callbacks *)

Lemma sameShape_refl w : sameShape w w.
Proof. repeat split. Qed.

Lemma sameShape_trans w1 w2 w3 : sameShape w1 w2 -> sameShape w2 w3 -> sameShape w1 w3.
Proof.
  intros (A1 & A2 & A3 & A4 & A5) (B1 & B2 & B3 & B4 & B5).
  repeat split; try congruence; intros h; now rewrite B5.
Qed.

Lemma Quiet_refl w : Quiet w w.
Proof. split; [apply sameShape_refl | auto]. Qed.

Lemma Quiet_trans w1 w2 w3 : Quiet w1 w2 -> Quiet w2 w3 -> Quiet w1 w3.
Proof.
  intros [S1 Q1] [S2 Q2]. split; [eapply sameShape_trans; eassumption | auto].
Qed.

Lemma queueConsistent_same w w' :
  updatePending w' = updatePending w -> frameCallbacks w' = frameCallbacks w ->
  queueConsistent w -> queueConsistent w'.
Proof. unfold queueConsistent. intros -> ->. auto. Qed.

Lemma identity_with_state s c : identity (with_state s c) = identity c.
Proof. reflexivity. Qed.

Lemma identity_with_cache r t c : identity (with_cache r t c) = identity c.
Proof. reflexivity. Qed.

Lemma identity_upd_same (heap : Handle -> Closure) h c :
  identity c = identity (heap h) ->
  forall h', identity (upd heap h c h') = identity (heap h').
Proof.
  intros Hc h'. unfold upd. destruct (Nat.eqb_spec h' h); [now subst | reflexivity].
Qed.

Lemma schedule_quiet w : Quiet w (scheduleSharedUpdate w).
Proof.
  split.
  - unfold scheduleSharedUpdate. destruct (updatePending w); repeat split.
  - unfold queueConsistent, scheduleSharedUpdate.
    destruct (updatePending w) eqn:E; [now rewrite E|].
    cbn [frameCallbacks updatePending set_frames set_updatePending].
    intros Hq. rewrite length_app, Hq. reflexivity.
Qed.

Lemma pollForDrag_quiet env h w : Quiet w (pollForDrag env h w).
Proof.
  unfold pollForDrag, getContainerRect.
  destruct (now env - c_lastRectUpdate (closures (record _ w) h) >? 300)%Z;
    cbv zeta;
    match goal with
    | |- context [if ?b then _ else _] => destruct b
    end;
    (split; [repeat split; cbn [closures set_closure set_closures record];
             intros h'; repeat (rewrite identity_upd_same; [|reflexivity]);
             reflexivity
            | apply queueConsistent_same; reflexivity]).
Qed.

Lemma onResize_quiet env h entries w : Quiet w (onResize env h entries w).
Proof.
  unfold onResize. apply fold_left_invariant; [|apply Quiet_refl].
  intros a entry Ha. eapply Quiet_trans; [exact Ha|].
  split; [|apply queueConsistent_same; reflexivity].
  repeat split. cbn [closures set_closure set_closures record].
  intros h'. rewrite identity_upd_same; reflexivity.
Qed.

Lemma refreshRectAndSchedule_quiet env h w : Quiet w (refreshRectAndSchedule env h w).
Proof.
  unfold refreshRectAndSchedule.
  eapply Quiet_trans; [|apply schedule_quiet].
  split; [|apply queueConsistent_same; reflexivity].
  repeat split. cbn [closures set_closure set_closures record].
  intros h'. rewrite identity_upd_same; reflexivity.
Qed.

Lemma userMoves_quiet el x y w : Quiet w (userMoves el x y w).
Proof. split; [repeat split | apply queueConsistent_same; reflexivity]. Qed.

Lemma sharedUpdate_frame env w :
  sameShape w (sharedUpdate env w) /\
  closures (sharedUpdate env w) = closures w /\
  frameCallbacks (sharedUpdate env w) = frameCallbacks w /\
  updatePending (sharedUpdate env w) = false.
Proof.
  rewrite sharedUpdate_eq.
  destruct (write_loop_frame (passUpdates env w) (log_app (passReads w) w))
    as (Hi & _ & _ & Hq & _ & Hc & Hh & Hr & Ht).
  cbn [instances registrations nextHandle nextTimer closures frameCallbacks
       updatePending set_updatePending log_app] in *.
  unfold sameShape.
  cbn [instances registrations nextHandle nextTimer closures frameCallbacks
       updatePending set_updatePending].
  rewrite Hi, Hq, Hc, Hh, Hr, Ht. repeat split.
Qed.

Lemma frame_loop_pending env queued : forall w,
  queued <> [] ->
  updatePending (fold_left (fun w (_ : nat) => sharedUpdate env w) queued w) = false.
Proof.
  induction queued as [|q [|q' r] IH]; intros w Hne; [congruence| |].
  - simpl. apply sharedUpdate_frame.
  - change (fold_left _ (q :: q' :: r) w)
      with (fold_left (fun w (_ : nat) => sharedUpdate env w) (q' :: r)
                      (sharedUpdate env w)).
    apply IH. discriminate.
Qed.

Lemma runFrame_quiet env w : Quiet w (runFrame env w).
Proof.
  unfold runFrame.
  set (w1 := set_frames (sharedRAFId w) [] (nextFrameId w) w).
  assert (Hfold : sameShape w (fold_left (fun w (_ : nat) => sharedUpdate env w)
                                         (frameCallbacks w) w1) /\
                  frameCallbacks (fold_left (fun w (_ : nat) => sharedUpdate env w)
                                            (frameCallbacks w) w1) = []).
  { apply (fold_left_invariant (fun a => sameShape w a /\ frameCallbacks a = [])).
    - intros a _ [Ha Hq]. destruct (sharedUpdate_frame env a) as (S & _ & F & _).
      split; [eapply sameShape_trans; eassumption | congruence].
    - split; [repeat split | reflexivity]. }
  destruct Hfold as [Hs Hq]. split; [exact Hs|].
  unfold queueConsistent. intros Hc. rewrite Hq.
  destruct (frameCallbacks w) as [|q r] eqn:E.
  - simpl in *. destruct (updatePending w); [discriminate | reflexivity].
  - rewrite frame_loop_pending by discriminate. reflexivity.
Qed.

Lemma dispatch_quiet sel cb w :
  (forall h a, Quiet a (cb h a)) -> Quiet w (dispatch sel cb w).
Proof.
  intros Hcb. unfold dispatch.
  apply fold_left_invariant; [|apply Quiet_refl].
  intros a r Ha. destruct (sel r); [|exact Ha].
  eapply Quiet_trans; [exact Ha | apply Hcb].
Qed.

Lemma WellFormed_quiet w w' : Quiet w w' -> WellFormed w -> WellFormed w'.
Proof.
  intros [(Hi & Hr & Hh & Ht & Hid) Hq] (K & C & T & P & Q).
  unfold WellFormed, trackingMap, editorCoherent in *.
  rewrite Hi, Hh, Ht.
  split; [exact K|]. split.
  { intros this id e Hin. rewrite Hid. exact (C this id e Hin). }
  split; [exact T|]. split; [exact P | exact (Hq Q)].
Qed.

Lemma Tidy_sameShape w w' : sameShape w w' -> Tidy w -> Tidy w'.
Proof.
  intros (Hi & Hr & _) Ht. unfold Tidy, allEditors in *. now rewrite Hi, Hr.
Qed.

(** *** Deleting from a tracking map *)

Lemma trackingMap_set this m w this' :
  trackingMap this' (set_trackingMap this m w) =
  if Nat.eqb this' this
  then (if Nat.ltb this (List.length (instances w)) then m else [])
  else trackingMap this' w.
Proof.
  unfold trackingMap, set_trackingMap. cbn [instances set_instances].
  destruct (Nat.eqb_spec this' this) as [->|Hne].
  - apply nth_list_update.
  - apply nth_list_update_other. congruence.
Qed.

Lemma trackingMap_out_of_range this w :
  (List.length (instances w) <= this)%nat -> trackingMap this w = [].
Proof. intros H. unfold trackingMap. now apply nth_overflow. Qed.

Lemma in_map_delete id m id' e :
  In (id', e) (map_delete id m) <-> In (id', e) m /\ id' <> id.
Proof.
  unfold map_delete. rewrite filter_In. cbn [fst].
  destruct (String.eqb_spec id id') as [->|Hne]; simpl; split.
  - intros [_ H]; discriminate.
  - intros [_ H]; congruence.
  - intros [H _]. split; [exact H | congruence].
  - intros [H _]. split; [exact H | reflexivity].
Qed.

Lemma NoDup_keys_filter (f : string * TrackedEditor -> bool) m :
  NoDup (map_keys m) -> NoDup (map_keys (filter f m)).
Proof.
  unfold map_keys. induction m as [|[k v] m IH]; intros Hnd; simpl; [constructor|].
  inversion Hnd as [|? ? Hnot Hnd']; subst.
  destruct (f (k, v)); [|auto].
  simpl. constructor; [|auto].
  intros Hin. apply Hnot. apply in_map_iff in Hin.
  destruct Hin as [[k' v'] [Hk Hin]]. apply filter_In in Hin.
  apply in_map_iff. exists (k', v'). tauto.
Qed.

Lemma in_map_get id e m : map_get id m = Some e -> In (id, e) m.
Proof.
  induction m as [|[k v] m IH]; simpl; [discriminate|].
  destruct (String.eqb_spec id k) as [->|Hne].
  - intros [= ->]. now left.
  - intros H. right. auto.
Qed.

Lemma map_get_in id e m : NoDup (map_keys m) -> In (id, e) m -> map_get id m = Some e.
Proof.
  unfold map_keys. induction m as [|[k v] m IH]; simpl; [contradiction|].
  intros Hnd [Heq|Hin]; inversion Hnd as [|? ? Hnot Hnd']; subst.
  - inversion Heq; subst. now rewrite String.eqb_refl.
  - destruct (String.eqb_spec id k) as [->|Hne]; [|auto].
    exfalso. apply Hnot. apply in_map_iff. exists (k, e). tauto.
Qed.

(** Whoever only deletes one identifier from one map, and keeps the
    counters, the captured constants and the frame queue, keeps the world
    well formed. *)
Lemma WellFormed_delete w w' this id :
  instances w' = list_update this (map_delete id (trackingMap this w)) (instances w) ->
  nextHandle w' = nextHandle w -> nextTimer w' = nextTimer w ->
  (forall h, identity (closures w' h) = identity (closures w h)) ->
  updatePending w' = updatePending w -> frameCallbacks w' = frameCallbacks w ->
  WellFormed w -> WellFormed w'.
Proof.
  intros Hi Hh Ht Hid Hp Hq (K & C & T & P & Q).
  assert (Hmap : forall this',
            trackingMap this' w' =
            if Nat.eqb this' this
            then (if Nat.ltb this (List.length (instances w))
                  then map_delete id (trackingMap this w) else [])
            else trackingMap this' w).
  { intros this'. rewrite <- trackingMap_set. unfold trackingMap, set_trackingMap.
    cbn [instances set_instances]. now rewrite Hi. }
  assert (Hsub : forall this' id' e,
            In (id', e) (trackingMap this' w') -> In (id', e) (trackingMap this' w)).
  { intros this' id' e. rewrite Hmap.
    destruct (Nat.eqb_spec this' this) as [->|_]; [|auto].
    destruct (Nat.ltb _ _); [|contradiction].
    intros Hin. now apply in_map_delete in Hin. }
  unfold WellFormed. split.
  { intros this'. rewrite Hmap.
    destruct (Nat.eqb_spec this' this) as [->|_]; [|apply K].
    destruct (Nat.ltb _ _); [|constructor].
    apply NoDup_keys_filter, K. }
  split.
  { intros this' id' e Hin. specialize (C _ _ _ (Hsub _ _ _ Hin)).
    unfold editorCoherent in *. now rewrite Hh, Ht, Hid. }
  split.
  { intros. eapply T; eauto. }
  split; [now rewrite Ht|].
  eapply queueConsistent_same; eassumption.
Qed.

Lemma cleanup_WellFormed this id w : WellFormed w -> WellFormed (cleanup this id w).
Proof.
  intros Hwf. unfold cleanup.
  destruct (map_get id (trackingMap this w)) as [e|]; [|exact Hwf].
  eapply WellFormed_delete; try eassumption; reflexivity.
Qed.

Lemma cleanupAll_WellFormed this w : WellFormed w -> WellFormed (cleanupAll this w).
Proof.
  unfold cleanupAll. apply fold_left_invariant.
  intros a id. apply cleanup_WellFormed.
Qed.

Lemma closureCleanup_WellFormed h w : WellFormed w -> WellFormed (closureCleanup h w).
Proof.
  intros Hwf. unfold closureCleanup.
  eapply WellFormed_delete; try eassumption; reflexivity.
Qed.

Lemma onMutation_WellFormed env h w : WellFormed w -> WellFormed (onMutation env h w).
Proof.
  intros Hwf. unfold onMutation.
  destruct (negb _); [now apply closureCleanup_WellFormed | exact Hwf].
Qed.

Lemma construct_trackingMap this w :
  trackingMap this (construct w) = trackingMap this w.
Proof.
  unfold trackingMap, construct. cbn [instances set_instances].
  destruct (Nat.lt_ge_cases this (List.length (instances w))) as [Hlt|Hge].
  - now apply app_nth1.
  - rewrite (nth_overflow (instances w)) by exact Hge.
    rewrite app_nth2 by exact Hge.
    destruct (this - List.length (instances w))%nat as [|[|k]]; reflexivity.
Qed.

Lemma construct_WellFormed w : WellFormed w -> WellFormed (construct w).
Proof.
  intros (K & C & T & P & Q). unfold WellFormed.
  split; [intros this; rewrite construct_trackingMap; apply K|].
  split.
  { intros this id e. rewrite construct_trackingMap. apply C. }
  split.
  { intros this1 id1 e1 this2 id2 e2. rewrite !construct_trackingMap. apply T. }
  split; [exact P | exact Q].
Qed.

(** *** Pinning *)

Lemma map_has_get id m : map_has id m = false <-> map_get id m = None.
Proof. unfold map_has. destruct (map_get id m); split; congruence. Qed.

Lemma map_set_fresh id v m : map_get id m = None -> map_set id v m = m ++ [(id, v)].
Proof.
  induction m as [|[k v'] m IH]; simpl; [reflexivity|].
  destruct (String.eqb id k); [discriminate|]. intros H. now rewrite IH.
Qed.

Lemma map_set_last id v v' m :
  map_get id m = None -> map_set id v' (m ++ [(id, v)]) = m ++ [(id, v')].
Proof.
  induction m as [|[k v''] m IH]; simpl.
  - now rewrite String.eqb_refl.
  - destruct (String.eqb id k); [discriminate|]. intros H. now rewrite IH.
Qed.

Lemma list_update_twice {A : Type} (a b : A) : forall l i,
  list_update i b (list_update i a l) = list_update i b l.
Proof.
  induction l as [|x l IH]; intros [|i]; simpl; try reflexivity.
  now rewrite IH.
Qed.

Lemma pin_after_cleanup env this id n el w :
  pinHoverEditorToNode env this id n el w =
  pinHoverEditorToNode env this id n el (cleanup this id w).
Proof.
  unfold pinHoverEditorToNode.
  assert (Hgone : map_has id (trackingMap this (cleanup this id w)) = false).
  { apply map_has_get, cleanup_removes. }
  rewrite Hgone.
  destruct (map_has id (trackingMap this w)) eqn:E; [reflexivity|].
  assert (Hsame : cleanup this id w = w).
  { unfold cleanup. apply map_has_get in E. now rewrite E. }
  now rewrite Hsame.
Qed.

Ltac eval_fields :=
  lazy beta iota zeta delta
    [pinHoverEditorToNode closureCleanup cleanup scheduleSharedUpdate
     register unregister set_trackingMap trackingMap
     set_instances set_registrations set_closures set_closure
     set_updatePending set_frames set_styles record
     instances updatePending sharedRAFId frameCallbacks nextFrameId closures
     nextHandle registrations nextTimer styles domLog].

(** What a pin call of an untracked identifier leaves behind. *)
Lemma pin_fresh env this id n el w :
  map_has id (trackingMap this w) = false ->
  (this < List.length (instances w))%nat ->
  let h := nextHandle w in
  let t := nextTimer w in
  let w' := pinHoverEditorToNode env this id n el w in
  instances w' =
    list_update this (trackingMap this w ++ [(id, pinnedEditor n el h t)]) (instances w) /\
  registrations w' =
    registrations w ++
      [ResizeObserving h el; MutationObserving h;
       ContainerResizeObserving h (node_cy n); WindowResize h;
       OnViewport (node_cy n) h; OnPosition n h; Interval t h] /\
  closures w' = upd (closures w) h (pinnedClosure env this id n el) /\
  nextHandle w' = S h /\ nextTimer w' = S t /\
  styles w' = styles w /\
  updatePending w' = true /\
  frameCallbacks w' = frameCallbacks (scheduleSharedUpdate w).
Proof.
  intros Hhas Hlt h t w'. subst w' h t.
  unfold pinHoverEditorToNode. rewrite Hhas.
  apply map_has_get in Hhas. apply Nat.ltb_lt in Hlt.
  destruct w as [ins pend raf fcb nf cl nh regs nt sty log].
  unfold trackingMap in Hhas. cbn [instances] in Hhas, Hlt.
  destruct pend; eval_fields;
    rewrite nth_list_update, Hlt, list_update_twice;
    rewrite (@map_set_fresh id _ (nth this ins []) Hhas), (@map_set_last id _ _ (nth this ins []) Hhas);
    repeat rewrite <- app_assoc; simpl app;
    repeat split.
Qed.

Lemma map_get_none_keys id m : map_get id m = None -> ~ In id (map_keys m).
Proof.
  unfold map_keys. induction m as [|[k v] m IH]; simpl; [tauto|].
  destruct (String.eqb_spec id k) as [->|Hne]; [discriminate|].
  intros H [Hk|Hin]; [congruence | now apply IH].
Qed.

Lemma cleanup_instances_length this id w :
  List.length (instances (cleanup this id w)) = List.length (instances w).
Proof.
  unfold cleanup. destruct (map_get id (trackingMap this w)); [|reflexivity].
  unfold set_trackingMap. cbn [instances set_instances unregister set_registrations].
  apply length_list_update.
Qed.

Lemma pin_fresh_WellFormed env this id n el w :
  map_has id (trackingMap this w) = false ->
  (this < List.length (instances w))%nat ->
  WellFormed w -> WellFormed (pinHoverEditorToNode env this id n el w).
Proof.
  intros Hhas Hlt (K & C & T & P & Q).
  destruct (pin_fresh env id n el w Hhas Hlt)
    as (Hi & Hr & Hc & Hh & Ht & _ & Hp & Hq).
  set (w' := pinHoverEditorToNode env this id n el w) in *.
  set (h := nextHandle w) in *. set (t := nextTimer w) in *.
  apply map_has_get in Hhas.
  assert (Hmap : forall this',
            trackingMap this' w' =
            if Nat.eqb this' this
            then trackingMap this w ++ [(id, pinnedEditor n el h t)]
            else trackingMap this' w).
  { intros this'. unfold trackingMap at 1. rewrite Hi.
    destruct (Nat.eqb_spec this' this) as [->|Hne].
    - rewrite nth_list_update. apply Nat.ltb_lt in Hlt. now rewrite Hlt.
    - apply nth_list_update_other. congruence. }
  assert (Hcases : forall this' id' e,
            In (id', e) (trackingMap this' w') ->
            In (id', e) (trackingMap this' w) \/
            (this' = this /\ id' = id /\ e = pinnedEditor n el h t)).
  { intros this' id' e. rewrite Hmap.
    destruct (Nat.eqb_spec this' this) as [->|Hne]; [|tauto].
    intros Hin. apply in_app_or in Hin. destruct Hin as [Hin|[Heq|[]]]; [tauto|].
    inversion Heq; subst. tauto. }
  unfold WellFormed. split.
  { intros this'. rewrite Hmap.
    destruct (Nat.eqb_spec this' this) as [->|Hne]; [|apply K].
    unfold map_keys. rewrite map_app. simpl.
    apply NoDup_app; [apply K | repeat constructor; simpl; tauto |].
    intros a Ha [<-|[]]. revert Ha. now apply map_get_none_keys. }
  split.
  { intros this' id' e Hin. apply Hcases in Hin.
    unfold editorCoherent. rewrite Hh, Ht, Hc.
    destruct Hin as [Hold|(-> & -> & ->)].
    - destruct (C _ _ _ Hold) as (A1 & A2 & A3 & A4 & A5 & A6 & A7 & A8 & A9).
      fold h in A6. rewrite upd_other by lia.
      repeat split; try assumption; lia.
    - cbn [pinnedEditor state resizeObserver mutationObserver
           containerResizeObserver windowResizeHandler onGraphChange
           dragPollInterval node popoverEl].
      rewrite upd_same. repeat split; try reflexivity; lia. }
  split.
  { intros this1 id1 e1 this2 id2 e2 H1 H2 Heq.
    apply Hcases in H1. apply Hcases in H2.
    destruct H1 as [O1|(-> & -> & ->)], H2 as [O2|(-> & -> & ->)].
    - eapply T; eauto.
    - destruct (C _ _ _ O1) as (_ & _ & _ & _ & _ & _ & _ & A8 & _).
      cbn [pinnedEditor dragPollInterval] in Heq. fold t in A8. lia.
    - destruct (C _ _ _ O2) as (_ & _ & _ & _ & _ & _ & _ & A8 & _).
      cbn [pinnedEditor dragPollInterval] in Heq. fold t in A8. lia.
    - reflexivity. }
  split; [lia|].
  unfold queueConsistent. rewrite Hp, Hq.
  destruct (schedule_quiet w) as [_ Hsq]. specialize (Hsq Q).
  unfold queueConsistent in Hsq. now rewrite schedule_sets_pending in Hsq.
Qed.

Lemma pin_WellFormed env this id n el w :
  (this < List.length (instances w))%nat ->
  WellFormed w -> WellFormed (pinHoverEditorToNode env this id n el w).
Proof.
  intros Hlt Hwf. rewrite pin_after_cleanup.
  apply pin_fresh_WellFormed.
  - apply map_has_get, cleanup_removes.
  - now rewrite cleanup_instances_length.
  - now apply cleanup_WellFormed.
Qed.

Lemma initialWorld_WellFormed : WellFormed initialWorld.
Proof.
  unfold WellFormed, trackingMap, queueConsistent. simpl.
  split; [intros [|?]; constructor|].
  split; [intros [|?] ? ? []|].
  split; [intros [|?] ? ? ? ? ? []|].
  split; [lia | reflexivity].
Qed.

Lemma step_WellFormed env op w :
  callable w op -> WellFormed w -> WellFormed (step env op w).
Proof.
  intros Hcall Hwf. destruct op; cbn [step callable] in *.
  - now apply construct_WellFormed.
  - now apply pin_WellFormed.
  - now apply cleanup_WellFormed.
  - now apply cleanupAll_WellFormed.
  - eapply WellFormed_quiet; [apply runFrame_quiet | exact Hwf].
  - eapply WellFormed_quiet; [|exact Hwf].
    apply dispatch_quiet. intros; apply pollForDrag_quiet.
  - eapply WellFormed_quiet; [|exact Hwf].
    apply dispatch_quiet. intros; apply schedule_quiet.
  - eapply WellFormed_quiet; [|exact Hwf].
    apply dispatch_quiet. intros; apply schedule_quiet.
  - eapply WellFormed_quiet; [|exact Hwf].
    apply dispatch_quiet. intros; apply onResize_quiet.
  - unfold dispatch. apply fold_left_invariant; [|exact Hwf].
    intros a r Ha. destruct r; try exact Ha. now apply onMutation_WellFormed.
  - eapply WellFormed_quiet; [|exact Hwf].
    apply dispatch_quiet. intros; apply refreshRectAndSchedule_quiet.
  - eapply WellFormed_quiet; [|exact Hwf].
    apply dispatch_quiet. intros; apply refreshRectAndSchedule_quiet.
  - eapply WellFormed_quiet; [apply userMoves_quiet | exact Hwf].
Qed.

Lemma ReachableVia_WellFormed allowed w : ReachableVia allowed w -> WellFormed w.
Proof.
  induction 1 as [|env op w _ IH _ Hcall].
  - apply initialWorld_WellFormed.
  - now apply step_WellFormed.
Qed.

(** *** The list of engines *)

Lemma pin_instances_length env this id n el w :
  List.length (instances (pinHoverEditorToNode env this id n el w)) =
  List.length (instances w).
Proof.
  rewrite pin_after_cleanup, <- (cleanup_instances_length this id w).
  assert (Hgone : map_has id (trackingMap this (cleanup this id w)) = false).
  { apply map_has_get, cleanup_removes. }
  revert Hgone. generalize (cleanup this id w). clear w.
  intros w Hgone. unfold pinHoverEditorToNode. rewrite Hgone.
  destruct w as [ins pend raf fcb nf cl nh regs nt sty log].
  destruct pend; eval_fields; now rewrite !length_list_update.
Qed.

Lemma closureCleanup_instances_length h w :
  List.length (instances (closureCleanup h w)) = List.length (instances w).
Proof.
  unfold closureCleanup, set_trackingMap.
  cbn [instances set_instances unregister set_registrations].
  apply length_list_update.
Qed.

Lemma fold_left_length_invariant {B : Type} (f : World -> B -> World) l k :
  (forall a b, List.length (instances (f a b)) = List.length (instances a)) ->
  forall w, List.length (instances w) = k ->
            List.length (instances (fold_left f l w)) = k.
Proof.
  intros Hf.
  apply (fold_left_invariant (fun a => List.length (instances a) = k)).
  intros a b Ha. now rewrite Hf.
Qed.

Lemma Quiet_instances w w' : Quiet w w' -> instances w' = instances w.
Proof. intros [(Hi & _) _]. exact Hi. Qed.

Lemma step_instances_length env op w :
  List.length (instances (step env op w)) =
  (List.length (instances w) + (if isConstruct op then 1 else 0))%nat.
Proof.
  destruct op; cbn [step isConstruct]; rewrite ?Nat.add_0_r.
  - unfold construct. cbn [instances set_instances]. apply length_app.
  - apply pin_instances_length.
  - apply cleanup_instances_length.
  - unfold cleanupAll. apply fold_left_length_invariant; [|reflexivity].
    intros; apply cleanup_instances_length.
  - now rewrite (Quiet_instances (runFrame_quiet env w)).
  - rewrite (Quiet_instances (w := w)); [reflexivity|].
    apply dispatch_quiet. intros; apply pollForDrag_quiet.
  - rewrite (Quiet_instances (w := w)); [reflexivity|].
    apply dispatch_quiet. intros; apply schedule_quiet.
  - rewrite (Quiet_instances (w := w)); [reflexivity|].
    apply dispatch_quiet. intros; apply schedule_quiet.
  - rewrite (Quiet_instances (w := w)); [reflexivity|].
    apply dispatch_quiet. intros; apply onResize_quiet.
  - unfold dispatch. apply fold_left_length_invariant; [|reflexivity].
    intros a [] ; try reflexivity. unfold onMutation.
    destruct (negb _); [apply closureCleanup_instances_length | reflexivity].
  - rewrite (Quiet_instances (w := w)); [reflexivity|].
    apply dispatch_quiet. intros; apply refreshRectAndSchedule_quiet.
  - rewrite (Quiet_instances (w := w)); [reflexivity|].
    apply dispatch_quiet. intros; apply refreshRectAndSchedule_quiet.
  - reflexivity.
Qed.

Lemma in_allEditors e w :
  In e (allEditors w) <-> exists this id, In (id, e) (trackingMap this w).
Proof.
  unfold allEditors, trackingMap. rewrite in_flat_map. split.
  - intros [m [Hm He]]. apply In_nth with (d := []) in Hm.
    destruct Hm as [this [_ Hnth]]. unfold map_values in He.
    apply in_map_iff in He. destruct He as [[id e'] [Heq Hin]].
    simpl in Heq. subst e'. exists this, id. now rewrite Hnth.
  - intros [this [id Hin]].
    destruct (Nat.lt_ge_cases this (List.length (instances w))) as [Hlt|Hge].
    + exists (nth this (instances w) []). split; [now apply nth_In|].
      unfold map_values. apply in_map_iff. now exists (id, e).
    + rewrite nth_overflow in Hin by exact Hge. contradiction.
Qed.

(** C10. The list of engines only grows: constructing an engine appends
    one (empty) tracking map to it; over any run of calls and host events
    its length is the initial length plus the number of constructions, so
    nothing is ever removed; [cleanupAll] in particular leaves the length
    as it was; and the batched pass collects the editors of every engine of
    the list. *)
Theorem instances_append_only (evs : list (Env * Op)) (w : World) :
  instances (construct w) = instances w ++ [[]] /\
  List.length (instances (run evs w)) =
    (List.length (instances w) + constructions evs)%nat /\
  (forall this,
     List.length (instances (cleanupAll this w)) = List.length (instances w)) /\
  (forall this id e, In (id, e) (trackingMap this w) -> In e (allEditors w)).
Proof.
  split; [reflexivity|]. split.
  { revert w. unfold run, constructions.
    induction evs as [|[env op] evs IH]; intros w; simpl.
    - now rewrite Nat.add_0_r.
    - rewrite IH, step_instances_length.
      destruct (isConstruct op); simpl; lia. }
  split.
  { intros this. unfold cleanupAll.
    apply fold_left_length_invariant; [|reflexivity].
    intros; apply cleanup_instances_length. }
  intros this id e Hin. apply in_allEditors. eauto.
Qed.

(** *** What a pass writes for one panel *)

Lemma sharedUpdate_style env w e :
  In e (allEditors w) -> sharedGraphView w -> distinctPanels w ->
  styles (sharedUpdate env w) (popoverEl e) =
  styleOf (updateFor env (zoom env (node_cy (node e)))
                     (containerRect env (node_cy (node e))) (closures w) e).
Proof.
  intros He Hview Hdistinct.
  assert (Hcy : forall f es, allEditors w = f :: es ->
                             node_cy (node f) = node_cy (node e)).
  { intros f es E. apply Hview; [rewrite E; now left | exact He]. }
  destruct (in_split _ _ He) as (A & B & E).
  assert (Hlast : ~ In (popoverEl e) (map popoverEl B)).
  { unfold distinctPanels in Hdistinct. rewrite E, map_app in Hdistinct.
    simpl in Hdistinct. apply NoDup_remove_2 in Hdistinct.
    intros Hin. apply Hdistinct. apply in_or_app. now right. }
  rewrite sharedUpdate_eq. cbn [styles set_updatePending].
  unfold passUpdates.
  destruct (allEditors w) as [|f es] eqn:Ef; [destruct A; discriminate|].
  rewrite (Hcy f es eq_refl), E, map_app. simpl map.
  set (u := updateFor env (zoom env (node_cy (node e)))
                      (containerRect env (node_cy (node e))) (closures w) e).
  change (popoverEl e) with (u_popoverEl u).
  apply write_loop_last. rewrite map_map. exact Hlast.
Qed.


(** The state a tick leaves in its closure. *)
Lemma pollForDrag_state env h w :
  let c := closures w h in
  let rect := if (now env - c_lastRectUpdate c >? 300)%Z
              then containerRect env (c_cy c) else c_cachedContainerRect c in
  let z := zoom env (c_cy c) in
  let st := c_state c in
  let dx := parseFloatOrZero (s_left (styles w (c_popoverEl c)))
            - (left rect + x1 (renderedBoundingBox env (c_node c))
               + graphToScreen (offsetX st) z) in
  let dy := parseFloatOrZero (s_top (styles w (c_popoverEl c)))
            - (top rect + y1 (renderedBoundingBox env (c_node c))
               + graphToScreen (offsetY st) z) in
  c_state (closures (pollForDrag env h w) h) =
  if Qgtb (Qabs dx) 2 || Qgtb (Qabs dy) 2
  then {| offsetX := offsetX st + screenToGraph dx z;
          offsetY := offsetY st + screenToGraph dy z;
          width := width st; height := height st |}
  else st.
Proof.
  destruct w as [ins pend raf fcb nf cl nh regs nt sty log].
  unfold pollForDrag, getContainerRect. cbv zeta.
  cbn [closures record styles].
  destruct (now env - c_lastRectUpdate (cl h) >? 300)%Z;
    cbn [closures record styles set_closure set_closures nextHandle];
    rewrite ?upd_same;
    cbn [with_cache c_node c_state c_popoverEl c_cy];
    match goal with
    | |- context [if ?b then _ else _] => destruct b
    end;
    cbn [closures record styles set_closure set_closures nextHandle];
    rewrite ?upd_same; reflexivity.
Qed.


(** *** The editor a pin call leaves in the map *)

Lemma map_get_app_last id v m : map_get id m = None -> map_get id (m ++ [(id, v)]) = Some v.
Proof.
  induction m as [|[k v'] m IH]; simpl.
  - now rewrite String.eqb_refl.
  - destruct (String.eqb id k); [discriminate | exact IH].
Qed.

Lemma pin_result env this id n el w :
  (this < List.length (instances w))%nat ->
  let w0 := cleanup this id w in
  let w' := pinHoverEditorToNode env this id n el w in
  map_get id (trackingMap this w') =
    Some (pinnedEditor n el (nextHandle w) (nextTimer w)) /\
  closures w' (nextHandle w) = pinnedClosure env this id n el /\
  registrations w' = registrations w0 ++ footprint (pinnedEditor n el (nextHandle w) (nextTimer w)) /\
  instances w' =
    list_update this
      (trackingMap this w0 ++ [(id, pinnedEditor n el (nextHandle w) (nextTimer w))])
      (instances w0).
Proof.
  intros Hlt w0 w'. subst w'. rewrite pin_after_cleanup. fold w0.
  assert (Hgone : map_has id (trackingMap this w0) = false).
  { apply map_has_get, cleanup_removes. }
  assert (Hlt0 : (this < List.length (instances w0))%nat).
  { subst w0. now rewrite cleanup_instances_length. }
  assert (Hh : nextHandle w0 = nextHandle w /\ nextTimer w0 = nextTimer w).
  { subst w0. unfold cleanup. destruct (map_get _ _); split; reflexivity. }
  destruct Hh as [Hh Ht].
  destruct (pin_fresh env id n el w0 Hgone Hlt0) as (Hi & Hr & Hc & _).
  rewrite Hh, Ht in *.
  split.
  { unfold trackingMap at 1. rewrite Hi, nth_list_update.
    apply Nat.ltb_lt in Hlt0. rewrite Hlt0.
    apply map_get_app_last. now apply map_has_get. }
  split; [rewrite Hc; apply upd_same|].
  split; [exact Hr | exact Hi].
Qed.


(** *** Registrations and tracked editors stay in step *)

Lemma Permutation_filter_compat {A : Type} (f : A -> bool) (l l' : list A) :
  Permutation l l' -> Permutation (filter f l) (filter f l').
Proof.
  induction 1 as [|x l l' _ IH|x y l|l l' l'' _ IH1 _ IH2]; simpl.
  - constructor.
  - destruct (f x); [now constructor | exact IH].
  - destruct (f x), (f y); try reflexivity. apply perm_swap.
  - now transitivity (filter f l').
Qed.

Lemma Permutation_flat_map_compat {A B : Type} (f : A -> list B) (l l' : list A) :
  Permutation l l' -> Permutation (flat_map f l) (flat_map f l').
Proof.
  induction 1 as [|x l l' _ IH|x y l|l l' l'' _ IH1 _ IH2]; simpl.
  - constructor.
  - now apply Permutation_app_head.
  - rewrite !app_assoc. apply Permutation_app_tail, Permutation_app_comm.
  - now transitivity (flat_map f l').
Qed.

Lemma filter_none {A : Type} (f : A -> bool) (l : list A) :
  (forall x, In x l -> f x = false) -> filter f l = [].
Proof.
  induction l as [|a l IH]; intros H; simpl; [reflexivity|].
  rewrite (H a) by now left. apply IH. intros x Hx. apply H. now right.
Qed.

Lemma filter_all {A : Type} (f : A -> bool) (l : list A) :
  (forall x, In x l -> f x = true) -> filter f l = l.
Proof.
  induction l as [|a l IH]; intros H; simpl; [reflexivity|].
  rewrite (H a) by now left. f_equal. apply IH. intros x Hx. apply H. now right.
Qed.

Lemma filter_chain (p1 p2 p3 p4 p5 p6 p7 : Registration -> bool) l :
  filter (fun r => negb (p7 r))
    (filter (fun r => negb (p6 r))
      (filter (fun r => negb (p5 r))
        (filter (fun r => negb (p4 r))
          (filter (fun r => negb (p3 r))
            (filter (fun r => negb (p2 r))
              (filter (fun r => negb (p1 r)) l)))))) =
  filter (fun r => negb (p1 r || p2 r || p3 r || p4 r || p5 r || p6 r || p7 r)) l.
Proof.
  induction l as [|a l IH]; [reflexivity|]. simpl.
  destruct (p1 a); simpl; [exact IH|].
  destruct (p2 a); simpl; [exact IH|].
  destruct (p3 a); simpl; [exact IH|].
  destruct (p4 a); simpl; [exact IH|].
  destruct (p5 a); simpl; [exact IH|].
  destruct (p6 a); simpl; [exact IH|].
  destruct (p7 a); simpl; [exact IH|].
  now rewrite IH.
Qed.

Lemma cleanup_effect this id w e :
  map_get id (trackingMap this w) = Some e ->
  registrations (cleanup this id w) =
    filter (fun r => negb (dropped e r)) (registrations w) /\
  instances (cleanup this id w) =
    list_update this (map_delete id (trackingMap this w)) (instances w) /\
  closures (cleanup this id w) = closures w /\
  nextHandle (cleanup this id w) = nextHandle w /\
  nextTimer (cleanup this id w) = nextTimer w.
Proof.
  intros Hget. unfold cleanup. rewrite Hget.
  destruct w as [ins pend raf fcb nf cl nh regs nt sty log].
  eval_fields. rewrite filter_chain. repeat split.
Qed.

Lemma node_eqb_refl n : node_eqb n n = true.
Proof. unfold node_eqb. now rewrite !Nat.eqb_refl. Qed.

Lemma dropped_own e r : In r (footprint e) -> dropped e r = true.
Proof.
  unfold footprint, dropped. simpl.
  intros [<-|[<-|[<-|[<-|[<-|[<-|[<-|[]]]]]]]]; simpl;
    rewrite ?Nat.eqb_refl, ?node_eqb_refl; simpl;
    rewrite ?orb_true_r; reflexivity.
Qed.

Lemma dropped_other w this id e this' id' e' r :
  editorCoherent w this id e -> editorCoherent w this' id' e' ->
  state e' <> state e -> dragPollInterval e' <> dragPollInterval e ->
  In r (footprint e') -> dropped e r = false.
Proof.
  intros (A1 & A2 & A3 & A4 & A5 & _) (B1 & B2 & B3 & B4 & B5 & _) Hs Ht.
  unfold footprint, dropped. rewrite A1, A2, A3, A4, A5, B1, B2, B3, B4, B5.
  apply Nat.eqb_neq in Hs. apply Nat.eqb_neq in Ht.
  simpl.
  intros [<-|[<-|[<-|[<-|[<-|[<-|[<-|[]]]]]]]]; simpl;
    rewrite ?Hs, ?Ht, ?andb_false_r; reflexivity.
Qed.

Lemma map_delete_absent id m : ~ In id (map_keys m) -> map_delete id m = m.
Proof.
  intros Hnot. unfold map_delete. apply filter_all.
  intros [k v] Hin. simpl. apply negb_true_iff.
  destruct (String.eqb_spec id k) as [->|]; [|reflexivity].
  exfalso. apply Hnot. unfold map_keys. apply in_map_iff. now exists (k, v).
Qed.

Lemma map_values_delete id e m :
  NoDup (map_keys m) -> map_get id m = Some e ->
  Permutation (map_values m) (e :: map_values (map_delete id m)).
Proof.
  induction m as [|[k v] m IH]; intros Hnd Hget; [discriminate|].
  inversion Hnd as [|? ? Hnot Hnd']; subst.
  simpl in Hget. unfold map_delete. simpl.
  destruct (String.eqb_spec id k) as [->|Hne]; simpl.
  - injection Hget as ->. fold (map_delete k m).
    now rewrite map_delete_absent by exact Hnot.
  - fold (map_delete id m). etransitivity; [|apply perm_swap].
    constructor. now apply IH.
Qed.

Lemma allEditors_delete id e : forall ins this,
  NoDup (map_keys (nth this ins [])) ->
  map_get id (nth this ins []) = Some e ->
  Permutation (flat_map map_values ins)
    (e :: flat_map map_values (list_update this (map_delete id (nth this ins [])) ins)).
Proof.
  induction ins as [|m ins IH]; intros [|this] Hnd Hget; simpl in *;
    try discriminate.
  - change (e :: map_values (map_delete id m) ++ flat_map map_values ins)
      with ((e :: map_values (map_delete id m)) ++ flat_map map_values ins).
    apply Permutation_app_tail. now apply map_values_delete.
  - etransitivity; [apply Permutation_app_head, (IH this Hnd Hget)|].
    symmetry. apply Permutation_middle.
Qed.

Lemma cleanup_trackingMap this id w e this' :
  map_get id (trackingMap this w) = Some e ->
  trackingMap this' (cleanup this id w) =
  if Nat.eqb this' this then map_delete id (trackingMap this w)
  else trackingMap this' w.
Proof.
  intros Hget. destruct (cleanup_effect _ _ _ Hget) as (_ & Hi & _).
  unfold trackingMap at 1. rewrite Hi.
  destruct (Nat.eqb_spec this' this) as [->|Hne].
  - rewrite nth_list_update.
    destruct (Nat.ltb_spec this (List.length (instances w))) as [_|Hge];
      [reflexivity|].
    rewrite trackingMap_out_of_range in Hget by exact Hge. discriminate.
  - apply nth_list_update_other. congruence.
Qed.

(** An editor that survives [cleanup this id] is not the one removed. *)
Lemma cleanup_survivor w this id e e' :
  WellFormed w -> map_get id (trackingMap this w) = Some e ->
  In e' (allEditors (cleanup this id w)) ->
  exists this' id',
    In (id', e') (trackingMap this' w) /\
    state e' <> state e /\ dragPollInterval e' <> dragPollInterval e.
Proof.
  intros (K & C & T & _) Hget Hin.
  apply in_allEditors in Hin. destruct Hin as (this' & id' & Hin).
  rewrite (cleanup_trackingMap _ _ _ this' Hget) in Hin.
  pose proof (in_map_get _ _ Hget) as He.
  assert (Hold : In (id', e') (trackingMap this' w) /\ (this' <> this \/ id' <> id)).
  { destruct (Nat.eqb_spec this' this) as [->|Hne].
    - apply in_map_delete in Hin. tauto.
    - tauto. }
  destruct Hold as [Hold Hdiff].
  assert (Hstate : state e' <> state e).
  { intros Heq.
    destruct (C _ _ _ Hold) as (_ & _ & _ & _ & _ & _ & _ & _ & I1).
    destruct (C _ _ _ He) as (_ & _ & _ & _ & _ & _ & _ & _ & I2).
    rewrite Heq, I2 in I1. injection I1 as -> -> _. tauto. }
  exists this', id'. split; [exact Hold|]. split; [exact Hstate|].
  intros Heq. apply Hstate. eapply T; eauto.
Qed.

Lemma cleanup_Tidy this id w : WellFormed w -> Tidy w -> Tidy (cleanup this id w).
Proof.
  intros Hwf Ht.
  destruct (map_get id (trackingMap this w)) as [e|] eqn:Hget.
  2:{ unfold cleanup. now rewrite Hget. }
  pose proof Hwf as (K & C & _).
  destruct (cleanup_effect _ _ _ Hget) as (Hr & Hi & _).
  unfold Tidy. rewrite Hr.
  etransitivity; [apply Permutation_filter_compat, Ht|].
  assert (Hperm : Permutation (allEditors w) (e :: allEditors (cleanup this id w))).
  { unfold allEditors. rewrite Hi. apply allEditors_delete; [apply K | exact Hget]. }
  etransitivity;
    [apply Permutation_filter_compat, Permutation_flat_map_compat, Hperm|].
  change (flat_map footprint (e :: allEditors (cleanup this id w)))
    with (footprint e ++ flat_map footprint (allEditors (cleanup this id w))).
  rewrite filter_app.
  rewrite filter_none, filter_all; [reflexivity| |].
  - intros r Hin. apply negb_true_iff. apply in_flat_map in Hin.
    destruct Hin as (e' & He' & Hr').
    destruct (@cleanup_survivor w this id e e' Hwf Hget He')
      as (this' & id' & Hold & Hs & Hd).
    eapply dropped_other; [apply (C this id e) | apply (C this' id' e') | | | ]; eauto.
    now apply in_map_get.
  - intros r Hin. apply negb_false_iff. now apply dropped_own.
Qed.

Lemma allEditors_append id te : forall ins this,
  (this < List.length ins)%nat ->
  Permutation
    (flat_map map_values (list_update this (nth this ins [] ++ [(id, te)]) ins))
    (te :: flat_map map_values ins).
Proof.
  induction ins as [|m ins IH]; intros [|this] Hlt; simpl in *; try lia.
  - unfold map_values at 1. rewrite map_app. simpl map.
    fold (map_values m).
    change (te :: map_values m ++ flat_map map_values ins)
      with ((te :: map_values m) ++ flat_map map_values ins).
    apply Permutation_app_tail. symmetry. apply Permutation_cons_append.
  - etransitivity; [apply Permutation_app_head, IH; lia|].
    symmetry. apply Permutation_middle.
Qed.

Lemma pin_allEditors env this id n el w :
  (this < List.length (instances w))%nat ->
  Permutation (allEditors (pinHoverEditorToNode env this id n el w))
              (pinnedEditor n el (nextHandle w) (nextTimer w)
               :: allEditors (cleanup this id w)).
Proof.
  intros Hlt. destruct (@pin_result env this id n el w Hlt) as (_ & _ & _ & Hi).
  unfold allEditors. rewrite Hi. apply allEditors_append.
  now rewrite cleanup_instances_length.
Qed.

Lemma pin_Tidy env this id n el w :
  (this < List.length (instances w))%nat ->
  WellFormed w -> Tidy w -> Tidy (pinHoverEditorToNode env this id n el w).
Proof.
  intros Hlt Hwf Ht.
  destruct (@pin_result env this id n el w Hlt) as (_ & _ & Hr & _).
  unfold Tidy. rewrite Hr.
  etransitivity;
    [|symmetry; apply Permutation_flat_map_compat, pin_allEditors; exact Hlt].
  change (flat_map footprint (?e :: ?l)) with (footprint e ++ flat_map footprint l).
  etransitivity; [apply Permutation_app_comm|].
  apply Permutation_app_head. now apply cleanup_Tidy.
Qed.

Lemma cleanupAll_Tidy this w :
  WellFormed w -> Tidy w -> WellFormed (cleanupAll this w) /\ Tidy (cleanupAll this w).
Proof.
  intros Hwf Ht. unfold cleanupAll.
  apply (fold_left_invariant (fun a => WellFormed a /\ Tidy a)); [|tauto].
  intros a id [Ha Hta]. split; [now apply cleanup_WellFormed | now apply cleanup_Tidy].
Qed.

Lemma Quiet_Tidy w w' : Quiet w w' -> Tidy w -> Tidy w'.
Proof. intros [Hs _]. now apply Tidy_sameShape. Qed.

Lemma step_Tidy env op w :
  notRemoval op -> callable w op -> WellFormed w -> Tidy w -> Tidy (step env op w).
Proof.
  intros Hop Hcall Hwf Ht. destruct op; cbn [step callable] in *.
  - unfold Tidy, allEditors, construct in *. cbn [instances registrations set_instances].
    rewrite flat_map_app. simpl. now rewrite app_nil_r.
  - now apply pin_Tidy.
  - now apply cleanup_Tidy.
  - now apply cleanupAll_Tidy.
  - eapply Quiet_Tidy; [apply runFrame_quiet | exact Ht].
  - eapply Quiet_Tidy; [|exact Ht].
    apply dispatch_quiet. intros; apply pollForDrag_quiet.
  - eapply Quiet_Tidy; [|exact Ht].
    apply dispatch_quiet. intros; apply schedule_quiet.
  - eapply Quiet_Tidy; [|exact Ht].
    apply dispatch_quiet. intros; apply schedule_quiet.
  - eapply Quiet_Tidy; [|exact Ht].
    apply dispatch_quiet. intros; apply onResize_quiet.
  - exfalso. now apply Hop.
  - eapply Quiet_Tidy; [|exact Ht].
    apply dispatch_quiet. intros; apply refreshRectAndSchedule_quiet.
  - eapply Quiet_Tidy; [|exact Ht].
    apply dispatch_quiet. intros; apply refreshRectAndSchedule_quiet.
  - eapply Quiet_Tidy; [apply userMoves_quiet | exact Ht].
Qed.

Lemma ReachableByPinUnpin_Tidy w : ReachableByPinUnpin w -> Tidy w.
Proof.
  induction 1 as [|env op w Hre IH Hop Hcall].
  - unfold Tidy. simpl. constructor.
  - apply step_Tidy; try assumption.
    exact (ReachableVia_WellFormed Hre).
Qed.

Lemma footprint_handle w this id e r :
  editorCoherent w this id e -> In r (footprint e) -> registrationHandle r = state e.
Proof.
  intros (A1 & A2 & A3 & A4 & A5 & _). unfold footprint.
  rewrite A1, A2, A3, A4, A5. simpl.
  intros [<-|[<-|[<-|[<-|[<-|[<-|[<-|[]]]]]]]]; reflexivity.
Qed.

(** C6. At most one registration per identifier.  In every world reached
    by constructions, pin and cleanup calls and host events other than the
    removal observer, each tracking map has distinct keys and the live
    registrations are, up to order, exactly the registrations of the
    tracked editors.  Pinning an identifier that is already tracked is the
    same as running [cleanup] for it and then pinning: none of the previous
    editor's registrations is live after the teardown or after the pin, the
    identifier maps to the new editor, whose registrations are all live,
    and again nothing else is live. *)
Theorem one_registration_per_identifier (w : World) :
  ReachableByPinUnpin w ->
  (forall this, NoDup (map_keys (trackingMap this w))) /\
  Permutation (registrations w) (flat_map footprint (allEditors w)) /\
  (forall env this id n el old,
     (this < List.length (instances w))%nat ->
     map_get id (trackingMap this w) = Some old ->
     let w' := pinHoverEditorToNode env this id n el w in
     let new := pinnedEditor n el (nextHandle w) (nextTimer w) in
     w' = pinHoverEditorToNode env this id n el (cleanup this id w) /\
     (forall r, In r (footprint old) ->
        ~ In r (registrations (cleanup this id w)) /\
        ~ In r (registrations w')) /\
     map_get id (trackingMap this w') = Some new /\
     NoDup (map_keys (trackingMap this w')) /\
     (forall r, In r (footprint new) -> In r (registrations w')) /\
     Permutation (registrations w') (flat_map footprint (allEditors w'))).
Proof.
  intros Hre.
  pose proof (ReachableVia_WellFormed Hre) as Hwf.
  pose proof (ReachableByPinUnpin_Tidy Hre) as Ht.
  split; [apply Hwf|]. split; [exact Ht|].
  intros env this id n el old Hlt Hget w' new.
  assert (Hre' : ReachableByPinUnpin w').
  { apply (@reach_step notRemoval env (Pin this id n el) w Hre);
      [discriminate | exact Hlt]. }
  pose proof (ReachableVia_WellFormed Hre') as Hwf'.
  pose proof (ReachableByPinUnpin_Tidy Hre') as Ht'.
  destruct (@pin_result env this id n el w Hlt) as (Hnew & _ & Hr & _).
  fold w' new in Hnew, Hr.
  split; [apply pin_after_cleanup|].
  split.
  { intros r Hr0.
    assert (Hgone : ~ In r (registrations (cleanup this id w))).
    { destruct (cleanup_effect _ _ _ Hget) as (Hc & _). rewrite Hc.
      intros Hin. apply filter_In in Hin. destruct Hin as [_ Hkeep].
      rewrite (@dropped_own old r Hr0) in Hkeep. discriminate. }
    split; [exact Hgone|].
    intros Hin. rewrite Hr in Hin. apply in_app_or in Hin.
    destruct Hin as [Hin|Hin]; [now apply Hgone|].
    pose proof Hwf as (_ & C & _). pose proof Hwf' as (_ & C' & _).
    pose proof (C _ _ _ (in_map_get _ _ Hget)) as Cold.
    pose proof (C' _ _ _ (in_map_get _ _ Hnew)) as Cnew.
    pose proof (@footprint_handle _ _ _ _ _ Cold Hr0) as H1.
    pose proof (@footprint_handle _ _ _ _ _ Cnew Hin) as H2.
    destruct Cold as (_ & _ & _ & _ & _ & Hbound & _).
    rewrite H1 in H2. subst new. cbn [pinnedEditor state] in H2. lia. }
  split; [exact Hnew|]. split; [apply Hwf'|].
  split; [|exact Ht'].
  intros r Hin. rewrite Hr. apply in_or_app. now right.
Qed.

(** *** Runs are reachable *)

Lemma run_ReachableVia (allowed : Op -> Prop) (allowedb : Op -> bool) :
  (forall op, allowedb op = true -> allowed op) ->
  forall evs w, ReachableVia allowed w -> runnable allowedb evs w = true ->
                ReachableVia allowed (run evs w).
Proof.
  intros Hallowed. induction evs as [|[env op] evs IH]; intros w Hre Hrun.
  - exact Hre.
  - simpl in Hrun. apply andb_true_iff in Hrun. destruct Hrun as [Hrun Hrest].
    apply andb_true_iff in Hrun. destruct Hrun as [Hop Hcall].
    change (run ((env, op) :: evs) w) with (run evs (step env op w)).
    apply IH; [|exact Hrest]. constructor; [exact Hre | now apply Hallowed |].
    destruct op; simpl in *; try exact I. now apply Nat.ltb_lt.
Qed.

Lemma notRemovalb_sound op : notRemovalb op = true -> notRemoval op.
Proof. destruct op; simpl; intros H; try discriminate H; discriminate. Qed.

Lemma ReachableByPinUnpin_Reachable w : ReachableByPinUnpin w -> Reachable w.
Proof.
  induction 1 as [|env op w _ IH _ Hcall]; [constructor|].
  now constructor.
Qed.

(** *** The removal path *)

Lemma closureCleanup_effect h w :
  let c := closures w h in
  registrations (closureCleanup h w) =
    filter (fun r => negb (is_viewport (c_cy c) h r
                           || is_position (c_node c) h r
                           || is_resizeObserver h r
                           || is_mutationObserver h r
                           || is_containerResizeObserver h r
                           || is_windowResize h r
                           || is_interval (c_dragPollInterval c) r))
           (registrations w) /\
  instances (closureCleanup h w) =
    list_update (c_this c)
      (map_delete (c_terminalId c) (trackingMap (c_this c) w)) (instances w).
Proof.
  unfold closureCleanup.
  destruct w as [ins pend raf fcb nf cl nh regs nt sty log].
  eval_fields. rewrite filter_chain. split; reflexivity.
Qed.

(** The removal path never clears a timer: the variable it passes to
    [clearInterval] is never assigned. *)
Lemma removal_leaves_poll_running env w this id e :
  ReachableByPinUnpin w ->
  map_get id (trackingMap this w) = Some e ->
  bodyContains env (popoverEl e) = false ->
  let w' := onMutation env (mutationObserver e) w in
  map_get id (trackingMap this w') = None /\
  In (Interval (dragPollInterval e) (state e)) (registrations w') /\
  (forall r, In r (footprint e) ->
             r <> Interval (dragPollInterval e) (state e) ->
             ~ In r (registrations w')).
Proof.
  intros Hre Hget Hgone w'.
  pose proof (ReachableVia_WellFormed Hre) as (K & C & _).
  pose proof (ReachableByPinUnpin_Tidy Hre) as Ht.
  pose proof (in_map_get _ _ Hget) as Hin.
  destruct (C _ _ _ Hin) as (A1 & A2 & A3 & A4 & A5 & _ & _ & _ & Hid).
  unfold identity in Hid. injection Hid as Hthis Hterm Hnode Hel Hcy Hdrag.
  subst w'. unfold onMutation. rewrite A2, Hel, Hgone. cbn [negb].
  destruct (closureCleanup_effect (state e) w) as (Hr & Hi).
  rewrite Hthis, Hterm, Hnode, Hcy, Hdrag in *.
  split.
  { unfold trackingMap at 1. rewrite Hi, nth_list_update.
    destruct (Nat.ltb _ _); [apply map_get_delete_same | reflexivity]. }
  split.
  { rewrite Hr. apply filter_In. split; [|reflexivity].
    eapply Permutation_in; [symmetry; exact Ht|].
    apply in_flat_map. exists e. split; [apply in_allEditors; eauto|].
    unfold footprint. simpl. tauto. }
  intros r Hfoot Hne Hlive. rewrite Hr in Hlive.
  apply filter_In in Hlive. destruct Hlive as [_ Hkeep].
  unfold footprint in Hfoot. rewrite A1, A2, A3, A4, A5 in Hfoot.
  simpl in Hfoot.
  destruct Hfoot as [<-|[<-|[<-|[<-|[<-|[<-|[<-|[]]]]]]]];
    simpl in Hkeep; rewrite ?Nat.eqb_refl, ?node_eqb_refl in Hkeep;
    simpl in Hkeep; rewrite ?orb_true_r in Hkeep; try discriminate Hkeep.
  now apply Hne.
Qed.

(** C4 (the code departs from it).  In the sample session the panel's
    element leaves the document and the removal observer fires.  The
    identifier leaves the tracking map and six of the seven registrations
    are dropped, but the interval timer stays live, and the next firing of
    that timer still runs the drag poll on the detached element. *)
Theorem removal_teardown_leaves_timer :
  instances sampleRemoved = [[]] /\
  registrations samplePositioned =
    [ResizeObserving 0 5; MutationObserving 0; ContainerResizeObserving 0 0;
     WindowResize 0; OnViewport 0 0; OnPosition sampleNode 0; Interval 1 0]%nat /\
  registrations sampleRemoved = [Interval 1 0]%nat /\
  c_dragPollInterval (closures samplePositioned 0%nat) = None /\
  domLog (step (sampleEnv 1 200 false) (TimerFires 1%nat) sampleRemoved) =
    domLog sampleRemoved ++
      [EvZoom 0%nat; EvNodeBox sampleNode;
       EvStyleRead 5%nat PLeft; EvStyleRead 5%nat PTop].
Proof. vm_compute. repeat split. Qed.

(** ** The theorems at work on the sample session *)

Lemma samplePinned_reachable : ReachableByPinUnpin samplePinned.
Proof.
  unfold samplePinned.
  apply (@run_ReachableVia notRemoval notRemovalb notRemovalb_sound);
    [constructor | vm_compute; reflexivity].
Qed.

Lemma sampleDragged_reachable : Reachable sampleDragged.
Proof.
  unfold sampleDragged, samplePositioned.
  apply ReachableByPinUnpin_Reachable.
  do 2 (apply (@run_ReachableVia notRemoval notRemovalb notRemovalb_sound);
        [|vm_compute; reflexivity]).
  exact samplePinned_reachable.
Qed.






Lemma schedule_coalesces_witness :
  (1 <= 3)%nat /\ queueConsistent samplePositioned /\
  Nat.iter 3 scheduleSharedUpdate samplePositioned =
    scheduleSharedUpdate samplePositioned /\
  exists id,
    frameCallbacks (Nat.iter 3 scheduleSharedUpdate samplePositioned) = [id].
Proof.
  assert (H1 : (1 <= 3)%nat) by lia.
  assert (H2 : queueConsistent samplePositioned) by (vm_compute; reflexivity).
  split; [exact H1|]. split; [exact H2|].
  pose proof (@schedule_coalesces 3 (sampleEnv 1 32 true) samplePositioned H1 H2)
    as (Ha & _ & Hb & _).
  split; [exact Ha | exact Hb].
Defined.

Lemma sharedUpdate_reads_precede_writes_witness :
  exists reads writes,
    domLog (sharedUpdate (sampleEnv 1 16 true) samplePinned) =
      domLog samplePinned ++ reads ++ writes /\
    forallb is_geometry_read reads = true /\
    forallb is_dom_write writes = true /\
    In (EvZoom 0%nat) reads /\ In (EvContainerRect 0%nat) reads /\
    In (EvNodeBox sampleNode) reads /\
    forall p, In (EvStyleWrite 5%nat p) writes.
Proof.
  destruct (sharedUpdate_reads_precede_writes (sampleEnv 1 16 true) samplePinned)
    as (reads & writes & Hlog & Hr & Hw & Hfirst & Hall).
  exists reads, writes.
  assert (He : allEditors samplePinned = [sampleEditor])
    by (vm_compute; reflexivity).
  destruct (Hfirst sampleEditor [] He) as [Hz Hc].
  destruct (Hall sampleEditor) as [Hb Hwr]; [rewrite He; now left|].
  repeat split; assumption.
Defined.


Lemma one_registration_per_identifier_witness :
  ReachableByPinUnpin samplePinned /\
  (0 < List.length (instances samplePinned))%nat /\
  map_get "terminal-1" (trackingMap 0 samplePinned) = Some sampleEditor /\
  map_get "terminal-1"
    (trackingMap 0 (pinHoverEditorToNode (sampleEnv 1 50 true) 0 "terminal-1"
                      sampleNode 6%nat samplePinned))
  = Some (pinnedEditor sampleNode 6%nat 1%nat 2%nat) /\
  ~ In (Interval 1%nat 0%nat)
       (registrations (pinHoverEditorToNode (sampleEnv 1 50 true) 0 "terminal-1"
                         sampleNode 6%nat samplePinned)).
Proof.
  assert (Hlt : (0 < List.length (instances samplePinned))%nat)
    by (vm_compute; lia).
  assert (Hget : map_get "terminal-1" (trackingMap 0 samplePinned) = Some sampleEditor)
    by (vm_compute; reflexivity).
  split; [exact samplePinned_reachable|].
  split; [exact Hlt|]. split; [exact Hget|].
  destruct (one_registration_per_identifier samplePinned_reachable)
    as (_ & _ & Hrepin).
  destruct (Hrepin (sampleEnv 1 50 true) 0%nat "terminal-1"%string sampleNode 6%nat
                   sampleEditor Hlt Hget)
    as (_ & Hold & Hnew & _).
  split; [exact Hnew|].
  apply Hold. unfold footprint, sampleEditor. simpl. tauto.
Defined.


Lemma pollForDrag_never_writes_dom_witness :
  styles (pollForDrag (sampleEnv 1 200 true) 0%nat sampleDragged)
  = styles sampleDragged.
Proof.
  exact (proj1 (pollForDrag_never_writes_dom (sampleEnv 1 200 true) 0%nat sampleDragged)).
Defined.

Lemma cleanup_unknown_is_noop_witness :
  map_has "terminal-9" (trackingMap 0 samplePinned) = false /\
  cleanup 0 "terminal-9" samplePinned = samplePinned.
Proof.
  assert (H : map_has "terminal-9" (trackingMap 0 samplePinned) = false)
    by (vm_compute; reflexivity).
  split; [exact H | exact (cleanup_unknown_is_noop 0 "terminal-9" samplePinned H)].
Defined.

Lemma instances_append_only_witness :
  List.length
    (instances (run [(sampleEnv 1 300 true, CleanupAll 0);
                     (sampleEnv 1 310 true, Construct)] samplePinned)) = 2%nat /\
  In sampleEditor (allEditors samplePinned).
Proof.
  destruct (instances_append_only
              [(sampleEnv 1 300 true, CleanupAll 0%nat);
               (sampleEnv 1 310 true, Construct)] samplePinned)
    as (_ & Hlen & _ & Hall).
  split.
  - rewrite Hlen. vm_compute. reflexivity.
  - apply (Hall 0%nat "terminal-1"%string). vm_compute. now left.
Defined.

(** * Further properties of the engine *)

Unset Implicit Arguments.

(** ** Unit converter *)

(** X1. The two conversions are inverse to each other at a non-zero
    zoom. *)
Theorem unit_converter_round_trip (v z : Q) :
  ~ z == 0 ->
  graphToScreen (screenToGraph v z) z == v /\
  screenToGraph (graphToScreen v z) z == v.
Proof.
  intros Hz. unfold graphToScreen, screenToGraph. split; field; exact Hz.
Qed.

Lemma unit_converter_round_trip_witness :
  ~ 2 == 0 /\
  graphToScreen (screenToGraph 3 2) 2 == 3 /\
  screenToGraph (graphToScreen 3 2) 2 == 3.
Proof.
  assert (H : ~ 2 == 0) by (intros E; discriminate E).
  split; [exact H | exact (@unit_converter_round_trip 3 2 H)].
Defined.

(** ** The container-rectangle cache *)

(** X2. Up to and including 300 ms after the last refresh the cache
    answers without touching the DOM or the world.  Past 300 ms the
    rectangle is read anew, and any call made within the next 300 ms gets
    that same rectangle from the cache, again without a DOM read. *)
Theorem getContainerRect_cache (env env' : Env) (h : Handle) (w : World) :
  ((now env - c_lastRectUpdate (closures w h) <= 300)%Z ->
   getContainerRect env h w = (c_cachedContainerRect (closures w h), w)) /\
  ((300 < now env - c_lastRectUpdate (closures w h))%Z ->
   fst (getContainerRect env h w) = containerRect env (c_cy (closures w h)) /\
   domLog (snd (getContainerRect env h w)) =
     domLog w ++ [EvContainerRect (c_cy (closures w h))] /\
   ((now env' - now env <= 300)%Z ->
    getContainerRect env' h (snd (getContainerRect env h w)) =
      (containerRect env (c_cy (closures w h)), snd (getContainerRect env h w)))).
Proof.
  unfold getContainerRect. split.
  - intros Hle. destruct (Z.gtb_spec (now env - c_lastRectUpdate (closures w h)) 300);
      [lia | reflexivity].
  - intros Hgt. destruct (Z.gtb_spec (now env - c_lastRectUpdate (closures w h)) 300);
      [|lia].
    cbn [fst snd]. split; [reflexivity|]. split; [reflexivity|].
    intros Hsoon.
    cbn [closures set_closure set_closures record]. rewrite upd_same.
    cbn [with_cache c_lastRectUpdate c_cachedContainerRect].
    destruct (Z.gtb_spec (now env' - now env) 300); [lia | reflexivity].
Qed.

Lemma getContainerRect_cache_witness :
  getContainerRect (sampleEnv 1 300 true) 0%nat samplePositioned =
    ({| left := 30; top := 40 |}, samplePositioned) /\
  fst (getContainerRect (sampleEnv 1 301 true) 0%nat samplePositioned) =
    {| left := 30; top := 40 |} /\
  getContainerRect (sampleEnv 1 601 true) 0%nat
      (snd (getContainerRect (sampleEnv 1 301 true) 0%nat samplePositioned)) =
    ({| left := 30; top := 40 |},
     snd (getContainerRect (sampleEnv 1 301 true) 0%nat samplePositioned)).
Proof.
  destruct (getContainerRect_cache (sampleEnv 1 300 true) (sampleEnv 1 300 true)
              0%nat samplePositioned) as [Hin _].
  destruct (getContainerRect_cache (sampleEnv 1 301 true) (sampleEnv 1 601 true)
              0%nat samplePositioned) as [_ Hout].
  split; [apply Hin; vm_compute; discriminate|].
  destruct Hout as (Hf & _ & Hnext); [vm_compute; reflexivity|].
  split; [exact Hf|]. apply Hnext. vm_compute. discriminate.
Defined.

(** ** The drag poll *)

Lemma pollForDrag_state_positions env h w :
  c_state (closures (pollForDrag env h w) h) =
  let st := c_state (closures w h) in
  let z := zoom env (c_cy (closures w h)) in
  let dx := fst (actualPosition h w) - fst (expectedPosition env h w) in
  let dy := snd (actualPosition h w) - snd (expectedPosition env h w) in
  if Qgtb (Qabs dx) 2 || Qgtb (Qabs dy) 2
  then {| offsetX := offsetX st + screenToGraph dx z;
          offsetY := offsetY st + screenToGraph dy z;
          width := width st; height := height st |}
  else st.
Proof.
  rewrite pollForDrag_state. unfold expectedPosition, actualPosition, getContainerRect.
  cbv zeta. destruct (now env - c_lastRectUpdate (closures w h) >? 300)%Z; reflexivity.
Qed.

(** X3. A divergence of at most 2 pixels on both axes (2 included) is not a
    drag: the tick leaves the state of its closure as it was. *)
Theorem pollForDrag_within_threshold (env : Env) (h : Handle) (w : World) :
  Qabs (fst (actualPosition h w) - fst (expectedPosition env h w)) <= 2 ->
  Qabs (snd (actualPosition h w) - snd (expectedPosition env h w)) <= 2 ->
  c_state (closures (pollForDrag env h w) h) = c_state (closures w h).
Proof.
  intros Hx Hy. rewrite pollForDrag_state_positions. cbv zeta.
  unfold Qgtb. apply Qle_bool_iff in Hx. apply Qle_bool_iff in Hy.
  rewrite Hx, Hy. reflexivity.
Qed.

Lemma pollForDrag_within_threshold_witness :
  Qabs (fst (actualPosition 0%nat samplePositioned)
        - fst (expectedPosition (sampleEnv 1 200 true) 0%nat samplePositioned)) <= 2 /\
  Qabs (snd (actualPosition 0%nat samplePositioned)
        - snd (expectedPosition (sampleEnv 1 200 true) 0%nat samplePositioned)) <= 2 /\
  c_state (closures (pollForDrag (sampleEnv 1 200 true) 0%nat samplePositioned) 0%nat)
  = c_state (closures samplePositioned 0%nat).
Proof.
  assert (Hx : Qabs (fst (actualPosition 0%nat samplePositioned)
                     - fst (expectedPosition (sampleEnv 1 200 true) 0%nat samplePositioned)) <= 2)
    by (vm_compute; discriminate).
  assert (Hy : Qabs (snd (actualPosition 0%nat samplePositioned)
                     - snd (expectedPosition (sampleEnv 1 200 true) 0%nat samplePositioned)) <= 2)
    by (vm_compute; discriminate).
  split; [exact Hx|]. split; [exact Hy|].
  exact (@pollForDrag_within_threshold (sampleEnv 1 200 true) 0%nat samplePositioned Hx Hy).
Defined.

(** ** The size-change observer *)

Lemma onResize_keeps env h entries w :
  let w' := onResize env h entries w in
  c_cy (closures w' h) = c_cy (closures w h) /\
  offsetX (c_state (closures w' h)) = offsetX (c_state (closures w h)) /\
  offsetY (c_state (closures w' h)) = offsetY (c_state (closures w h)) /\
  styles w' = styles w /\
  updatePending w' = updatePending w /\
  frameCallbacks w' = frameCallbacks w /\
  (forall h', h' <> h -> closures w' h' = closures w h').
Proof.
  unfold onResize.
  apply (fold_left_invariant
           (fun a => c_cy (closures a h) = c_cy (closures w h) /\
                     offsetX (c_state (closures a h)) = offsetX (c_state (closures w h)) /\
                     offsetY (c_state (closures a h)) = offsetY (c_state (closures w h)) /\
                     styles a = styles w /\
                     updatePending a = updatePending w /\
                     frameCallbacks a = frameCallbacks w /\
                     (forall h', h' <> h -> closures a h' = closures w h'))).
  - intros a entry (H1 & H2 & H3 & H4 & H5 & H6 & H7).
    cbn [closures set_closure set_closures record styles updatePending frameCallbacks].
    rewrite upd_same. cbn [with_state c_cy c_state offsetX offsetY].
    repeat split; try assumption.
    intros h' Hne. rewrite upd_other by exact Hne. now apply H7.
  - repeat split.
Qed.

(** X4. The size-change observer keeps the last entry it is given: width
    and height become that entry's content size divided by the zoom, the
    offsets stay, no style is written and no batched pass is requested.
    With no entry nothing changes. *)
Theorem onResize_last_entry_wins
    (env : Env) (h : Handle) (entries : list (Q * Q)) (last : Q * Q) (w : World) :
  c_state (closures (onResize env h (entries ++ [last]) w) h) =
    {| offsetX := offsetX (c_state (closures w h));
       offsetY := offsetY (c_state (closures w h));
       width := screenToGraph (fst last) (zoom env (c_cy (closures w h)));
       height := screenToGraph (snd last) (zoom env (c_cy (closures w h))) |} /\
  styles (onResize env h (entries ++ [last]) w) = styles w /\
  updatePending (onResize env h (entries ++ [last]) w) = updatePending w /\
  frameCallbacks (onResize env h (entries ++ [last]) w) = frameCallbacks w /\
  (forall h', h' <> h ->
     closures (onResize env h (entries ++ [last]) w) h' = closures w h') /\
  onResize env h [] w = w.
Proof.
  destruct (onResize_keeps env h (entries ++ [last]) w)
    as (_ & _ & _ & Hs & Hp & Hf & Ho).
  destruct (onResize_keeps env h entries w) as (Hcy & Hx & Hy & _).
  split; [|repeat split; assumption].
  unfold onResize in *. rewrite fold_left_app. cbn [fold_left].
  cbn [closures set_closure set_closures record].
  rewrite upd_same. cbn [with_state c_state].
  now rewrite Hcy, Hx, Hy.
Qed.

Lemma onResize_last_entry_wins_witness :
  width (c_state (closures (onResize (sampleEnv 2 40 true) 0%nat
                              ([(100, 80)] ++ [(320, 240)]) samplePositioned) 0%nat))
    = screenToGraph 320 2 /\
  closures (onResize (sampleEnv 2 40 true) 0%nat ([(100, 80)] ++ [(320, 240)])
                     samplePositioned) 1%nat
    = closures samplePositioned 1%nat.
Proof.
  destruct (onResize_last_entry_wins (sampleEnv 2 40 true) 0%nat [(100, 80)] (320, 240)
              samplePositioned) as (Hst & _ & _ & _ & Hothers & _).
  split; [rewrite Hst; reflexivity | apply Hothers; discriminate].
Defined.

(** ** The batched pass *)

Lemma write_loop_determined us el : forall w1 w2,
  In el (map u_popoverEl us) ->
  styles (fold_left applyUpdate us w1) el = styles (fold_left applyUpdate us w2) el.
Proof.
  induction us as [|u us IH]; intros w1 w2 Hin; [contradiction|].
  simpl fold_left.
  destruct (in_dec Nat.eq_dec el (map u_popoverEl us)) as [Hlater|Hnot].
  - now apply IH.
  - rewrite !write_loop_untouched by exact Hnot.
    destruct Hin as [<-|Hin]; [|contradiction].
    now rewrite !applyUpdate_style_same.
Qed.

Lemma sharedUpdate_style_first env w f rest e :
  allEditors w = f :: rest -> In e (allEditors w) -> distinctPanels w ->
  styles (sharedUpdate env w) (popoverEl e) =
  styleOf (updateFor env (zoom env (node_cy (node f)))
                     (containerRect env (node_cy (node f))) (closures w) e).
Proof.
  intros Ef He Hdistinct.
  destruct (in_split _ _ He) as (A & B & E).
  assert (Hlast : ~ In (popoverEl e) (map popoverEl B)).
  { unfold distinctPanels in Hdistinct. rewrite E, map_app in Hdistinct.
    simpl in Hdistinct. apply NoDup_remove_2 in Hdistinct.
    intros Hin. apply Hdistinct. apply in_or_app. now right. }
  rewrite sharedUpdate_eq. cbn [styles set_updatePending].
  unfold passUpdates. rewrite Ef. cbv zeta. rewrite <- Ef, E, map_app. simpl map.
  set (u := updateFor env (zoom env (node_cy (node f)))
                      (containerRect env (node_cy (node f))) (closures w) e).
  change (popoverEl e) with (u_popoverEl u).
  apply write_loop_last. rewrite map_map. exact Hlast.
Qed.

Lemma writes_of_updates env z r heap (l : list TrackedEditor) :
  flat_map writesOf (map (updateFor env z r heap) l) =
  flat_map (fun e0 => map (EvStyleWrite (popoverEl e0)) allStyleProps) l.
Proof.
  induction l as [|a l IH]; [reflexivity|].
  cbn [map flat_map]. rewrite IH. reflexivity.
Qed.

(** X5. When the tracked editors position distinct elements, one pass
    reads the zoom and the container rectangle once each, from the graph
    view of the first collected editor: its DOM accesses are that zoom
    read, that rectangle read, one node box per editor and then the six
    style writes of each panel, and nothing else.  It positions every
    tracked panel with those two readings, also a panel whose node belongs
    to another view. *)
Theorem sharedUpdate_uses_first_view
    (env : Env) (w : World) (f : TrackedEditor) (rest : list TrackedEditor)
    (e : TrackedEditor) :
  allEditors w = f :: rest -> In e (allEditors w) -> distinctPanels w ->
  let cy := node_cy (node f) in
  let st := c_state (closures w (state e)) in
  domLog (sharedUpdate env w) =
    domLog w
    ++ [EvZoom cy; EvContainerRect cy]
    ++ map (fun e0 => EvNodeBox (node e0)) (allEditors w)
    ++ flat_map (fun e0 => map (EvStyleWrite (popoverEl e0)) allStyleProps)
                (allEditors w) /\
  styles (sharedUpdate env w) (popoverEl e) =
    {| s_position := "fixed";
       s_left := Some (left (containerRect env cy) + x1 (renderedBoundingBox env (node e))
                       + graphToScreen (offsetX st) (zoom env cy));
       s_top := Some (top (containerRect env cy) + y1 (renderedBoundingBox env (node e))
                      + graphToScreen (offsetY st) (zoom env cy));
       s_width := Some (graphToScreen (width st) (zoom env cy));
       s_height := Some (graphToScreen (height st) (zoom env cy));
       s_zIndex := "1000" |}.
Proof.
  intros Ef He Hd cy st. split.
  - rewrite sharedUpdate_log. unfold passReads, passUpdates. rewrite Ef.
    cbv zeta. rewrite writes_of_updates. fold cy. reflexivity.
  - now rewrite (@sharedUpdate_style_first env w f rest e Ef He Hd).
Qed.

Lemma sampleTwoViews_editors : allEditors sampleTwoViews = [sampleEditor; sampleEditor2].
Proof. vm_compute. reflexivity. Qed.

Lemma sharedUpdate_uses_first_view_witness :
  domLog (sharedUpdate (twoViewEnv 16) sampleTwoViews) =
    domLog sampleTwoViews
    ++ [EvZoom 0%nat; EvContainerRect 0%nat]
    ++ [EvNodeBox sampleNode; EvNodeBox sampleNode2]
    ++ map (EvStyleWrite 5%nat) allStyleProps
    ++ map (EvStyleWrite 6%nat) allStyleProps /\
  exists x wd,
    s_left (styles (sharedUpdate (twoViewEnv 16) sampleTwoViews) 6%nat) = Some x /\
    s_width (styles (sharedUpdate (twoViewEnv 16) sampleTwoViews) 6%nat) = Some wd /\
    x == 30 + 20 + 10 * 1 /\ wd == 100 * 1.
Proof.
  assert (He : In sampleEditor2 (allEditors sampleTwoViews)).
  { rewrite sampleTwoViews_editors. right. now left. }
  assert (Hd : distinctPanels sampleTwoViews).
  { unfold distinctPanels. rewrite sampleTwoViews_editors.
    repeat constructor; simpl; intuition discriminate. }
  pose proof (@sharedUpdate_uses_first_view (twoViewEnv 16) sampleTwoViews
                sampleEditor [sampleEditor2] sampleEditor2
                sampleTwoViews_editors He Hd) as H.
  cbv zeta in H. destruct H as [Hlog H]. split.
  - rewrite Hlog, sampleTwoViews_editors. reflexivity.
  - cbn [sampleEditor2 pinnedEditor popoverEl] in H. rewrite H.
    cbn [s_left s_width]. do 2 eexists. split; [reflexivity|]. split; [reflexivity|].
    split; vm_compute; reflexivity.
Defined.

(** X6. A second pass in the same surroundings changes no style: what a
    pass writes depends only on the tracked states and on what it reads. *)
Theorem sharedUpdate_idempotent (env : Env) (w : World) (el : ElId) :
  styles (sharedUpdate env (sharedUpdate env w)) el = styles (sharedUpdate env w) el.
Proof.
  destruct (sharedUpdate_frame env w) as ((Hi & _) & Hc & _).
  assert (Hus : passUpdates env (sharedUpdate env w) = passUpdates env w).
  { unfold passUpdates, allEditors. now rewrite Hi, Hc. }
  remember (sharedUpdate env w) as w1 eqn:E1.
  rewrite (sharedUpdate_eq env w1), Hus.
  cbn [styles set_updatePending].
  destruct (in_dec Nat.eq_dec el (map u_popoverEl (passUpdates env w))) as [Hin|Hnot].
  - transitivity (styles (fold_left applyUpdate (passUpdates env w)
                                    (log_app (passReads w) w)) el).
    + now apply write_loop_determined.
    + subst w1. rewrite sharedUpdate_eq. reflexivity.
  - rewrite write_loop_untouched by exact Hnot. reflexivity.
Qed.

(** X7. Zoom invariance, in exact arithmetic (numbers are exact
    rationals, equality is equality of rationals).  When all tracked
    editors follow one graph view and position distinct elements, then at
    any non-zero zoom, converting what the pass writes for a tracked panel
    back to graph units gives the stored state: the offset from the node's
    viewport origin, the width and the height. *)
Theorem sharedUpdate_preserves_model_state
    (env : Env) (w : World) (e : TrackedEditor) :
  In e (allEditors w) -> sharedGraphView w -> distinctPanels w ->
  ~ zoom env (node_cy (node e)) == 0 ->
  let cy := node_cy (node e) in
  let st := c_state (closures w (state e)) in
  exists x y wd ht,
    s_left (styles (sharedUpdate env w) (popoverEl e)) = Some x /\
    s_top (styles (sharedUpdate env w) (popoverEl e)) = Some y /\
    s_width (styles (sharedUpdate env w) (popoverEl e)) = Some wd /\
    s_height (styles (sharedUpdate env w) (popoverEl e)) = Some ht /\
    screenToGraph (x - (left (containerRect env cy) + x1 (renderedBoundingBox env (node e))))
                  (zoom env cy) == offsetX st /\
    screenToGraph (y - (top (containerRect env cy) + y1 (renderedBoundingBox env (node e))))
                  (zoom env cy) == offsetY st /\
    screenToGraph wd (zoom env cy) == width st /\
    screenToGraph ht (zoom env cy) == height st.
Proof.
  intros He Hview Hd Hz cy st.
  rewrite (@sharedUpdate_style env w e He Hview Hd).
  unfold styleOf, updateFor. cbn [s_left s_top s_width s_height u_x u_y u_width u_height].
  do 4 eexists. repeat (split; [reflexivity|]).
  fold cy st. unfold screenToGraph, graphToScreen.
  repeat split; field; exact Hz.
Qed.

Lemma sharedUpdate_preserves_model_state_witness :
  ~ zoom (sampleEnv 2 16 true) (node_cy (node sampleEditor)) == 0 /\
  exists x y,
    s_left (styles (sharedUpdate (sampleEnv 2 16 true) samplePinned) 5%nat) = Some x /\
    s_top (styles (sharedUpdate (sampleEnv 2 16 true) samplePinned) 5%nat) = Some y /\
    screenToGraph (x - (30 + 20)) 2 == 10 /\
    screenToGraph (y - (40 + 10)) 2 == 20.
Proof.
  assert (Hz : ~ zoom (sampleEnv 2 16 true) (node_cy (node sampleEditor)) == 0)
    by (vm_compute; discriminate).
  assert (Hall : allEditors samplePinned = [sampleEditor]) by (vm_compute; reflexivity).
  assert (He : In sampleEditor (allEditors samplePinned)) by (rewrite Hall; now left).
  assert (Hview : sharedGraphView samplePinned).
  { unfold sharedGraphView. rewrite Hall. intros e1 e2 [<-|[]] [<-|[]]. reflexivity. }
  assert (Hd : distinctPanels samplePinned).
  { unfold distinctPanels. rewrite Hall. repeat constructor. simpl. tauto. }
  split; [exact Hz|].
  destruct (@sharedUpdate_preserves_model_state (sampleEnv 2 16 true) samplePinned
              sampleEditor He Hview Hd Hz)
    as (x & y & wd & ht & Hx & Hy & _ & _ & Hox & Hoy & _).
  exists x, y. split; [exact Hx|]. split; [exact Hy|].
  split; [exact Hox | exact Hoy].
Defined.

(** ** The pass and the poll agree *)

Lemma pollForDrag_styles env h w : styles (pollForDrag env h w) = styles w.
Proof.
  unfold pollForDrag, getContainerRect.
  destruct (now env - c_lastRectUpdate (closures (record _ w) h) >? 300)%Z;
    cbv zeta;
    match goal with
    | |- context [if ?b then _ else _] => destruct b
    end; reflexivity.
Qed.

Lemma Qgtb_self_false (a b : Q) : a == b -> Qgtb (Qabs (a - b)) 2 = false.
Proof.
  intros Hab. unfold Qgtb. apply negb_false_iff, Qle_bool_iff.
  assert (H0 : a - b == 0) by (rewrite Hab; ring).
  rewrite H0. discriminate.
Qed.

Lemma editor_closure w this id e :
  Reachable w -> map_get id (trackingMap this w) = Some e ->
  c_node (closures w (state e)) = node e /\
  c_popoverEl (closures w (state e)) = popoverEl e /\
  c_cy (closures w (state e)) = node_cy (node e) /\
  resizeObserver e = state e /\
  In e (allEditors w).
Proof.
  intros Hre Hget.
  pose proof (ReachableVia_WellFormed Hre) as (_ & C & _).
  pose proof (in_map_get _ _ Hget) as Hin.
  destruct (C _ _ _ Hin) as (A1 & _ & _ & _ & _ & _ & _ & _ & Hid).
  unfold identity in Hid. injection Hid as _ _ Hnode Hel Hcy _.
  repeat split; try assumption. apply in_allEditors. eauto.
Qed.

(** X8. The pass and the poll agree.  In a world reached by any run, in
    which all tracked editors follow one graph view and position distinct
    elements, take a tracked panel for which the container rectangle the
    tick uses (the cached one, or the one it reads anew when the cache is
    older than 300 ms) is the container's current one.  Right after a
    batched pass, a tick of that panel's poll in the same surroundings
    finds the panel where it expects it and leaves the editor state as it
    was, at any zoom. *)
Theorem tick_after_pass_is_quiet
    (env : Env) (w : World) (this : nat) (id : string) (e : TrackedEditor) :
  Reachable w ->
  map_get id (trackingMap this w) = Some e ->
  sharedGraphView w -> distinctPanels w ->
  fst (getContainerRect env (state e) w) = containerRect env (node_cy (node e)) ->
  c_state (closures (pollForDrag env (state e) (sharedUpdate env w)) (state e)) =
  c_state (closures w (state e)).
Proof.
  intros Hre Hget Hview Hd Hrect.
  destruct (editor_closure w this id e Hre Hget) as (Hnode & Hel & Hcy & _ & He).
  destruct (sharedUpdate_frame env w) as (_ & Hc & _).
  pose proof (@sharedUpdate_style env w e He Hview Hd) as Hs.
  rewrite pollForDrag_state. cbv zeta.
  rewrite Hc, Hnode, Hel, Hcy, Hs.
  unfold styleOf, updateFor. cbn [s_left s_top u_x u_y parseFloatOrZero].
  assert (Hrect' : (if (now env - c_lastRectUpdate (closures w (state e)) >? 300)%Z
                    then containerRect env (node_cy (node e))
                    else c_cachedContainerRect (closures w (state e)))
                   = containerRect env (node_cy (node e))).
  { unfold getContainerRect in Hrect. rewrite Hcy in Hrect.
    destruct (_ >? _)%Z; [reflexivity | exact Hrect]. }
  rewrite Hrect'.
  rewrite !Qgtb_self_false by reflexivity. reflexivity.
Qed.

Lemma tick_after_pass_is_quiet_witness :
  Reachable samplePinned /\
  c_state (closures (pollForDrag (sampleEnv 2 200 true) 0%nat
                       (sharedUpdate (sampleEnv 2 200 true) samplePinned)) 0%nat) =
  c_state (closures samplePinned 0%nat).
Proof.
  assert (Hre : Reachable samplePinned)
    by exact (ReachableByPinUnpin_Reachable samplePinned_reachable).
  assert (Hall : allEditors samplePinned = [sampleEditor]) by (vm_compute; reflexivity).
  split; [exact Hre|].
  refine (tick_after_pass_is_quiet (sampleEnv 2 200 true) samplePinned 0%nat
            "terminal-1" sampleEditor Hre _ _ _ _).
  - vm_compute; reflexivity.
  - unfold sharedGraphView. rewrite Hall. intros e1 e2 [<-|[]] [<-|[]]. reflexivity.
  - unfold distinctPanels. rewrite Hall. repeat constructor. simpl. tauto.
  - vm_compute; reflexivity.
Defined.

Lemma pollForDrag_closure_fields env h w :
  c_node (closures (pollForDrag env h w) h) = c_node (closures w h) /\
  c_popoverEl (closures (pollForDrag env h w) h) = c_popoverEl (closures w h) /\
  c_cy (closures (pollForDrag env h w) h) = c_cy (closures w h) /\
  fst (getContainerRect env h (pollForDrag env h w)) = fst (getContainerRect env h w).
Proof.
  destruct w as [ins pend raf fcb nf cl nh regs nt sty log].
  unfold pollForDrag, getContainerRect. cbv zeta. cbn [closures record].
  destruct (Z.gtb_spec (now env - c_lastRectUpdate (cl h)) 300) as [Hgt|Hle];
    cbn [closures record styles set_closure set_closures nextHandle fst];
    rewrite ?upd_same;
    cbn [with_cache c_node c_state c_popoverEl c_cy];
    match goal with
    | |- context [if ?b || ?b' then _ else _] => destruct (b || b')
    end;
    cbn [closures record styles set_closure set_closures nextHandle fst];
    rewrite ?upd_same;
    cbn [with_cache with_state c_node c_state c_popoverEl c_cy c_lastRectUpdate
         c_cachedContainerRect];
    repeat split;
    try (rewrite Z.sub_diag; reflexivity);
    destruct (Z.gtb_spec (now env - c_lastRectUpdate (cl h)) 300);
    try lia; reflexivity.
Qed.

(** X9. Attribution happens once: whatever a tick did, a second tick in
    the same surroundings leaves the state as the first one left it (at a
    non-zero zoom), so a drag is not counted twice while the pass is still
    to come. *)
Theorem second_tick_is_quiet (env : Env) (h : Handle) (w : World) :
  ~ zoom env (c_cy (closures w h)) == 0 ->
  c_state (closures (pollForDrag env h (pollForDrag env h w)) h) =
  c_state (closures (pollForDrag env h w) h).
Proof.
  intros Hz.
  destruct (pollForDrag_closure_fields env h w) as (Hnode & Hel & Hcy & Hrect).
  rewrite (pollForDrag_state_positions env h (pollForDrag env h w)). cbv zeta.
  unfold actualPosition, expectedPosition. cbn [fst snd].
  rewrite Hnode, Hel, Hcy, Hrect, pollForDrag_styles.
  rewrite (pollForDrag_state_positions env h w). cbv zeta.
  unfold actualPosition, expectedPosition. cbn [fst snd].
  set (z := zoom env (c_cy (closures w h))) in *.
  set (ax := parseFloatOrZero (s_left (styles w (c_popoverEl (closures w h))))).
  set (ay := parseFloatOrZero (s_top (styles w (c_popoverEl (closures w h))))).
  set (nvx := left (fst (getContainerRect env h w))
              + x1 (renderedBoundingBox env (c_node (closures w h)))).
  set (nvy := top (fst (getContainerRect env h w))
              + y1 (renderedBoundingBox env (c_node (closures w h)))).
  set (st := c_state (closures w h)).
  destruct (Qgtb (Qabs (ax - (nvx + graphToScreen (offsetX st) z))) 2
            || Qgtb (Qabs (ay - (nvy + graphToScreen (offsetY st) z))) 2) eqn:Hthr.
  - cbn [offsetX offsetY].
    rewrite !Qgtb_self_false; [reflexivity | |];
      unfold graphToScreen, screenToGraph; field; exact Hz.
  - rewrite Hthr. reflexivity.
Qed.

Lemma second_tick_is_quiet_witness :
  ~ zoom (sampleEnv 1 200 true) (c_cy (closures sampleDragged 0%nat)) == 0 /\
  c_state (closures (pollForDrag (sampleEnv 1 200 true) 0%nat
                       (pollForDrag (sampleEnv 1 200 true) 0%nat sampleDragged)) 0%nat) =
  c_state (closures (pollForDrag (sampleEnv 1 200 true) 0%nat sampleDragged) 0%nat).
Proof.
  assert (Hz : ~ zoom (sampleEnv 1 200 true) (c_cy (closures sampleDragged 0%nat)) == 0)
    by (vm_compute; discriminate).
  split; [exact Hz|].
  exact (second_tick_is_quiet (sampleEnv 1 200 true) 0%nat sampleDragged Hz).
Defined.

(** ** Resizing *)

Lemma onResize_state env h entries last w :
  c_state (closures (onResize env h (entries ++ [last]) w) h) =
    {| offsetX := offsetX (c_state (closures w h));
       offsetY := offsetY (c_state (closures w h));
       width := screenToGraph (fst last) (zoom env (c_cy (closures w h)));
       height := screenToGraph (snd last) (zoom env (c_cy (closures w h))) |}.
Proof.
  destruct (onResize_keeps env h entries w) as (Hcy & Hx & Hy & _).
  unfold onResize in *. rewrite fold_left_app. cbn [fold_left].
  cbn [closures set_closure set_closures record].
  rewrite upd_same. cbn [with_state c_state].
  now rewrite Hcy, Hx, Hy.
Qed.

(** X10. A size the user gives the panel survives the trip through graph
    units, in exact arithmetic (numbers are exact rationals, equality is
    equality of rationals).  In a world reached by any run, in which all
    tracked editors follow one graph view and position distinct elements,
    after the size-change observer of a tracked panel has seen a content
    size, the batched pass at the same non-zero zoom writes a width and a
    height equal to that size. *)
Theorem resize_then_pass_keeps_size
    (env : Env) (w : World) (this : nat) (id : string) (e : TrackedEditor)
    (entries : list (Q * Q)) (last : Q * Q) :
  Reachable w ->
  map_get id (trackingMap this w) = Some e ->
  sharedGraphView w -> distinctPanels w ->
  ~ zoom env (node_cy (node e)) == 0 ->
  exists wd ht,
    s_width (styles (sharedUpdate env
                       (onResize env (resizeObserver e) (entries ++ [last]) w))
                    (popoverEl e)) = Some wd /\
    s_height (styles (sharedUpdate env
                        (onResize env (resizeObserver e) (entries ++ [last]) w))
                     (popoverEl e)) = Some ht /\
    wd == fst last /\ ht == snd last.
Proof.
  intros Hre Hget Hview Hd Hz.
  destruct (editor_closure w this id e Hre Hget) as (_ & _ & Hcy & Hobs & He).
  rewrite Hobs.
  set (w1 := onResize env (state e) (entries ++ [last]) w).
  assert (Hi : instances w1 = instances w)
    by (apply Quiet_instances, onResize_quiet).
  assert (He1 : In e (allEditors w1)) by (unfold allEditors; now rewrite Hi).
  assert (Hview1 : sharedGraphView w1)
    by (unfold sharedGraphView, allEditors in *; now rewrite Hi).
  assert (Hd1 : distinctPanels w1)
    by (unfold distinctPanels, allEditors in *; now rewrite Hi).
  rewrite (@sharedUpdate_style env w1 e He1 Hview1 Hd1).
  unfold styleOf, updateFor. cbn [s_width s_height u_width u_height].
  subst w1. rewrite onResize_state. cbn [width height]. rewrite Hcy.
  do 2 eexists. split; [reflexivity|]. split; [reflexivity|].
  unfold graphToScreen, screenToGraph. split; field; exact Hz.
Qed.

Lemma resize_then_pass_keeps_size_witness :
  Reachable samplePinned /\
  exists wd ht,
    s_width (styles (sharedUpdate (sampleEnv 2 216 true)
                       (onResize (sampleEnv 2 216 true) 0%nat ([] ++ [(320, 240)])
                                 samplePinned)) 5%nat) = Some wd /\
    s_height (styles (sharedUpdate (sampleEnv 2 216 true)
                        (onResize (sampleEnv 2 216 true) 0%nat ([] ++ [(320, 240)])
                                  samplePinned)) 5%nat) = Some ht /\
    wd == 320 /\ ht == 240.
Proof.
  assert (Hre : Reachable samplePinned)
    by exact (ReachableByPinUnpin_Reachable samplePinned_reachable).
  assert (Hall : allEditors samplePinned = [sampleEditor]) by (vm_compute; reflexivity).
  split; [exact Hre|].
  refine (resize_then_pass_keeps_size (sampleEnv 2 216 true) samplePinned 0%nat
            "terminal-1" sampleEditor [] (320, 240) Hre _ _ _ _).
  - vm_compute; reflexivity.
  - unfold sharedGraphView. rewrite Hall. intros e1 e2 [<-|[]] [<-|[]]. reflexivity.
  - unfold distinctPanels. rewrite Hall. repeat constructor. simpl. tauto.
  - vm_compute; discriminate.
Defined.

(** ** Pinning and unpinning *)

Lemma list_update_nth_same {A : Type} (d : A) : forall l i,
  list_update i (nth i l d) l = l.
Proof.
  induction l as [|a l IH]; intros [|i]; simpl; try reflexivity.
  now rewrite IH.
Qed.

Lemma map_delete_app_last id v m :
  map_get id m = None -> map_delete id (m ++ [(id, v)]) = m.
Proof.
  intros Hnone. unfold map_delete. rewrite filter_app. simpl.
  rewrite String.eqb_refl. simpl. rewrite app_nil_r.
  apply map_delete_absent. now apply map_get_none_keys.
Qed.

Lemma dropped_foreign e e' r :
  resizeObserver e = state e -> mutationObserver e = state e ->
  containerResizeObserver e = state e -> windowResizeHandler e = state e ->
  onGraphChange e = state e ->
  resizeObserver e' = state e' -> mutationObserver e' = state e' ->
  containerResizeObserver e' = state e' -> windowResizeHandler e' = state e' ->
  onGraphChange e' = state e' ->
  state e' <> state e -> dragPollInterval e' <> dragPollInterval e ->
  In r (footprint e') -> dropped e r = false.
Proof.
  intros A1 A2 A3 A4 A5 B1 B2 B3 B4 B5 Hs Ht.
  unfold footprint, dropped. rewrite A1, A2, A3, A4, A5, B1, B2, B3, B4, B5.
  apply Nat.eqb_neq in Hs. apply Nat.eqb_neq in Ht.
  simpl.
  intros [<-|[<-|[<-|[<-|[<-|[<-|[<-|[]]]]]]]]; simpl;
    rewrite ?Hs, ?Ht, ?andb_false_r; reflexivity.
Qed.

Lemma Tidy_registration_owner w r :
  WellFormed w -> Tidy w -> In r (registrations w) ->
  exists this id e,
    In (id, e) (trackingMap this w) /\ In r (footprint e) /\
    editorCoherent w this id e.
Proof.
  intros (_ & C & _) Ht Hin.
  apply (Permutation_in _ Ht) in Hin. apply in_flat_map in Hin.
  destruct Hin as (e & He & Hr). apply in_allEditors in He.
  destruct He as (this & id & He). exists this, id, e. auto.
Qed.

(** X11. Unpinning undoes pinning: in a world reached without the removal
    observer, pinning an untracked identifier and then calling [cleanup]
    for it leaves the tracking maps and the live registrations exactly as
    they were before the pin. *)
Theorem pin_then_cleanup_restores
    (env : Env) (this : nat) (id : string) (n : NodeSingular) (el : ElId) (w : World) :
  ReachableByPinUnpin w ->
  (this < List.length (instances w))%nat ->
  map_has id (trackingMap this w) = false ->
  instances (cleanup this id (pinHoverEditorToNode env this id n el w)) = instances w /\
  registrations (cleanup this id (pinHoverEditorToNode env this id n el w)) =
    registrations w.
Proof.
  intros Hre Hlt Hhas.
  pose proof (ReachableVia_WellFormed Hre) as Hwf.
  pose proof (ReachableByPinUnpin_Tidy Hre) as Ht.
  destruct (@pin_fresh env this id n el w Hhas Hlt) as (Hi & Hr & _).
  cbv zeta in Hi, Hr.
  set (w1 := pinHoverEditorToNode env this id n el w) in *.
  set (new := pinnedEditor n el (nextHandle w) (nextTimer w)) in *.
  apply map_has_get in Hhas.
  assert (Hm1 : trackingMap this w1 = trackingMap this w ++ [(id, new)]).
  { unfold trackingMap at 1. rewrite Hi, nth_list_update.
    apply Nat.ltb_lt in Hlt. now rewrite Hlt. }
  assert (Hget1 : map_get id (trackingMap this w1) = Some new).
  { rewrite Hm1. now apply map_get_app_last. }
  destruct (@cleanup_effect this id w1 new Hget1) as (Hr2 & Hi2 & _).
  split.
  - rewrite Hi2, Hm1, Hi, list_update_twice.
    rewrite map_delete_app_last by exact Hhas.
    apply list_update_nth_same.
  - rewrite Hr2, Hr. rewrite filter_app.
    change [ResizeObserving (nextHandle w) el; MutationObserving (nextHandle w);
            ContainerResizeObserving (nextHandle w) (node_cy n);
            WindowResize (nextHandle w); OnViewport (node_cy n) (nextHandle w);
            OnPosition n (nextHandle w); Interval (nextTimer w) (nextHandle w)]
      with (footprint new).
    rewrite (filter_none (fun r => negb (dropped new r)) (footprint new)).
    + rewrite app_nil_r. apply filter_all. intros r Hin. apply negb_true_iff.
      destruct (Tidy_registration_owner w r Hwf Ht Hin)
        as (this' & id' & e' & _ & Hfoot & C1 & C2 & C3 & C4 & C5 & Hb & _ & Htb & _).
      apply (dropped_foreign new e' r); try reflexivity; try assumption;
        subst new; cbn [pinnedEditor state dragPollInterval]; lia.
    + intros r Hin. apply negb_false_iff. now apply dropped_own.
Qed.

Lemma pin_then_cleanup_restores_witness :
  ReachableByPinUnpin samplePinned /\
  registrations (cleanup 0 "terminal-2"
                   (pinHoverEditorToNode (sampleEnv 1 50 true) 0 "terminal-2"
                                         sampleNode 6%nat samplePinned)) =
    registrations samplePinned.
Proof.
  split; [exact samplePinned_reachable|].
  refine (proj2 (pin_then_cleanup_restores (sampleEnv 1 50 true) 0%nat "terminal-2"
                   sampleNode 6%nat samplePinned samplePinned_reachable _ _)).
  - vm_compute. lia.
  - vm_compute. reflexivity.
Defined.

Lemma dispatch_fixed sel cb w :
  (forall r h, In r (registrations w) -> sel r = Some h -> cb h w = w) ->
  dispatch sel cb w = w.
Proof.
  unfold dispatch. generalize (registrations w) as regs.
  induction regs as [|r regs IH]; intros Hfix; [reflexivity|].
  simpl. destruct (sel r) as [h|] eqn:E.
  - rewrite (Hfix r h (or_introl eq_refl) E). apply IH.
    intros r' h' Hin. apply Hfix. now right.
  - apply IH. intros r' h' Hin. apply Hfix. now right.
Qed.

(** X12. The method [cleanup] stops the drag poll: once it has run for a
    tracked identifier, a firing of that editor's interval timer finds no
    callback and leaves the world as it is. *)
Theorem cleanup_stops_poll
    (env : Env) (this : nat) (id : string) (e : TrackedEditor) (w : World) :
  map_get id (trackingMap this w) = Some e ->
  step env (TimerFires (dragPollInterval e)) (cleanup this id w) = cleanup this id w.
Proof.
  intros Hget. cbn [step]. apply dispatch_fixed.
  intros r h Hin Hsel. exfalso.
  destruct (@cleanup_effect this id w e Hget) as (Hr & _).
  rewrite Hr in Hin. apply filter_In in Hin. destruct Hin as [_ Hkeep].
  destruct r; try discriminate Hsel.
  destruct (Nat.eqb_spec t (dragPollInterval e)) as [->|]; [|discriminate Hsel].
  unfold dropped in Hkeep. cbn [is_viewport is_position is_resizeObserver
    is_mutationObserver is_containerResizeObserver is_windowResize is_interval orb]
    in Hkeep.
  rewrite Nat.eqb_refl in Hkeep. discriminate Hkeep.
Qed.

Lemma cleanup_stops_poll_witness :
  map_get "terminal-1" (trackingMap 0 samplePositioned) = Some sampleEditor /\
  step (sampleEnv 1 200 true) (TimerFires 1%nat) (cleanup 0 "terminal-1" samplePositioned)
  = cleanup 0 "terminal-1" samplePositioned.
Proof.
  assert (Hget : map_get "terminal-1" (trackingMap 0 samplePositioned) = Some sampleEditor)
    by (vm_compute; reflexivity).
  split; [exact Hget|].
  exact (cleanup_stops_poll (sampleEnv 1 200 true) 0%nat "terminal-1" sampleEditor
           samplePositioned Hget).
Defined.

Lemma cleanup_trackingMap_always this id w this' :
  trackingMap this' (cleanup this id w) =
  if Nat.eqb this' this then map_delete id (trackingMap this w)
  else trackingMap this' w.
Proof.
  destruct (map_get id (trackingMap this w)) as [e|] eqn:Hget.
  - now apply (@cleanup_trackingMap this id w e this').
  - unfold cleanup. rewrite Hget.
    destruct (Nat.eqb_spec this' this) as [->|]; [|reflexivity].
    symmetry. apply map_delete_absent. now apply map_get_none_keys.
Qed.

Lemma cleanup_each_empties this : forall ids w,
  (forall k, In k (map_keys (trackingMap this w)) -> In k ids) ->
  trackingMap this (fold_left (fun w id => cleanup this id w) ids w) = [].
Proof.
  induction ids as [|id ids IH]; intros w Hcover; simpl.
  - destruct (trackingMap this w) as [|[k v] m]; [reflexivity|].
    exfalso. apply (Hcover k). now left.
  - apply IH. intros k Hk.
    rewrite cleanup_trackingMap_always, Nat.eqb_refl in Hk.
    unfold map_keys in Hk. apply in_map_iff in Hk.
    destruct Hk as ([k' v] & Heq & Hin). simpl in Heq. subst k'.
    apply in_map_delete in Hin. destruct Hin as [Hin Hne].
    destruct (Hcover k) as [Heq|Hrest]; [|congruence | exact Hrest].
    unfold map_keys. apply in_map_iff. now exists (k, v).
Qed.

(** X13. [cleanupAll] unpins everything of its engine and nothing else:
    the engine's tracking map is empty afterwards, the maps of the other
    engines are untouched, and (in a world reached without the removal
    observer) no registration of an editor the engine tracked stays live. *)
Theorem cleanupAll_unpins_engine (this : nat) (w : World) :
  ReachableByPinUnpin w ->
  trackingMap this (cleanupAll this w) = [] /\
  (forall this', this' <> this ->
     trackingMap this' (cleanupAll this w) = trackingMap this' w) /\
  (forall id e r, In (id, e) (trackingMap this w) -> In r (footprint e) ->
     ~ In r (registrations (cleanupAll this w))).
Proof.
  intros Hre.
  pose proof (ReachableVia_WellFormed Hre) as Hwf.
  pose proof (ReachableByPinUnpin_Tidy Hre) as Ht.
  assert (Hempty : trackingMap this (cleanupAll this w) = []).
  { unfold cleanupAll. apply cleanup_each_empties. auto. }
  assert (Hothers : forall this', this' <> this ->
            trackingMap this' (cleanupAll this w) = trackingMap this' w).
  { intros this' Hne. unfold cleanupAll.
    apply (fold_left_invariant
             (fun a => trackingMap this' a = trackingMap this' w)); [|reflexivity].
    intros a id Ha. rewrite cleanup_trackingMap_always.
    destruct (Nat.eqb_spec this' this); [contradiction | exact Ha]. }
  split; [exact Hempty|]. split; [exact Hothers|].
  intros id e r He Hr Hlive.
  destruct (cleanupAll_Tidy this Hwf Ht) as [Hwf' Ht'].
  destruct (Tidy_registration_owner (cleanupAll this w) r Hwf' Ht' Hlive)
    as (this' & id' & e' & He' & Hr' & _).
  assert (Hne : this' <> this).
  { intros ->. rewrite Hempty in He'. contradiction. }
  rewrite (Hothers this' Hne) in He'.
  destruct Hwf as (_ & C & _).
  pose proof (C _ _ _ He) as Ce. pose proof (C _ _ _ He') as Ce'.
  pose proof (@footprint_handle w this id e r Ce Hr) as H1.
  pose proof (@footprint_handle w this' id' e' r Ce' Hr') as H2.
  destruct Ce as (_ & _ & _ & _ & _ & _ & _ & _ & I1).
  destruct Ce' as (_ & _ & _ & _ & _ & _ & _ & _ & I2).
  rewrite <- H2, H1, I1 in I2. injection I2 as Hthis _. congruence.
Qed.

Lemma cleanupAll_unpins_engine_witness :
  ReachableByPinUnpin sampleTwoViews /\
  trackingMap 0 (cleanupAll 0 sampleTwoViews) = [] /\
  registrations (cleanupAll 0 sampleTwoViews) = [] /\
  ~ In (Interval 2%nat 1%nat) (registrations (cleanupAll 0 sampleTwoViews)).
Proof.
  assert (Hre : ReachableByPinUnpin sampleTwoViews).
  { unfold sampleTwoViews.
    apply (@run_ReachableVia notRemoval notRemovalb notRemovalb_sound);
      [constructor | vm_compute; reflexivity]. }
  destruct (cleanupAll_unpins_engine 0%nat sampleTwoViews Hre) as (Hm & _ & Hr).
  split; [exact Hre|]. split; [exact Hm|]. split; [vm_compute; reflexivity|].
  apply (Hr "terminal-2"%string sampleEditor2).
  - vm_compute. right. now left.
  - unfold footprint, sampleEditor2. simpl. tauto.
Defined.

(** ** Registrations of tracked editors stay live *)

Lemma distinct_editors_distinct_handles w this id e this' id' e' :
  WellFormed w ->
  In (id, e) (trackingMap this w) -> In (id', e') (trackingMap this' w) ->
  this' <> this \/ id' <> id ->
  state e' <> state e /\ dragPollInterval e' <> dragPollInterval e.
Proof.
  intros (_ & C & T & _) He He' Hdiff.
  assert (Hs : state e' <> state e).
  { intros Heq.
    destruct (C _ _ _ He') as (_ & _ & _ & _ & _ & _ & _ & _ & I1).
    destruct (C _ _ _ He) as (_ & _ & _ & _ & _ & _ & _ & _ & I2).
    rewrite Heq, I2 in I1. injection I1 as -> -> _. tauto. }
  split; [exact Hs|]. intros Heq. apply Hs. eapply T; eauto.
Qed.

Lemma Quiet_Live w w' : Quiet w w' -> Live w -> Live w'.
Proof.
  intros [(Hi & Hr & _ & _ & Hid) _] [L N]. split.
  - intros this id e r. unfold trackingMap. rewrite Hi, Hr. apply L.
  - intros h. specialize (Hid h). unfold identity in Hid.
    injection Hid as _ _ _ _ _ Hd. rewrite Hd. apply N.
Qed.

Lemma cleanup_Live this id w : WellFormed w -> Live w -> Live (cleanup this id w).
Proof.
  intros Hwf [L N].
  destruct (map_get id (trackingMap this w)) as [e|] eqn:Hget.
  2:{ unfold cleanup. rewrite Hget. now split. }
  destruct (@cleanup_effect this id w e Hget) as (Hr & _ & Hc & _).
  pose proof (in_map_get _ _ Hget) as He.
  split; [|intros h; rewrite Hc; apply N].
  intros this' id' e' r He' Hfoot.
  rewrite cleanup_trackingMap_always in He'.
  assert (Hold : In (id', e') (trackingMap this' w) /\ (this' <> this \/ id' <> id)).
  { destruct (Nat.eqb_spec this' this) as [->|Hne]; [|tauto].
    apply in_map_delete in He'. tauto. }
  destruct Hold as [Hold Hdiff].
  rewrite Hr. apply filter_In. split; [exact (L _ _ _ _ Hold Hfoot)|].
  apply negb_true_iff.
  destruct (distinct_editors_distinct_handles w this id e this' id' e' Hwf He Hold Hdiff)
    as (Hs & Ht).
  destruct Hwf as (_ & C & _).
  eapply (@dropped_other w this id e this' id' e' r); eauto.
Qed.

Lemma closureCleanup_Live h w :
  WellFormed w -> Live w -> Live (closureCleanup h w).
Proof.
  intros Hwf [L N].
  destruct (closureCleanup_effect h w) as (Hr & Hi). cbv zeta in Hr, Hi.
  rewrite (N h) in Hr.
  split.
  2:{ intros h'. unfold closureCleanup. cbn [closures set_trackingMap set_instances
        unregister set_registrations]. apply N. }
  intros this' id' e' r He' Hfoot.
  assert (Hold : In (id', e') (trackingMap this' w) /\
                 (this' <> c_this (closures w h) \/ id' <> c_terminalId (closures w h))).
  { unfold trackingMap in He' at 1. rewrite Hi in He'.
    destruct (Nat.eq_dec this' (c_this (closures w h))) as [->|Hne].
    - rewrite nth_list_update in He'.
      destruct (Nat.ltb _ _); [|contradiction].
      apply in_map_delete in He'. tauto.
    - rewrite nth_list_update_other in He' by congruence. tauto. }
  destruct Hold as [Hold Hdiff].
  destruct Hwf as (_ & C & _).
  destruct (C _ _ _ Hold) as (B1 & B2 & B3 & B4 & B5 & _ & _ & _ & Hid).
  assert (Hs : state e' <> h).
  { intros <-. unfold identity in Hid. injection Hid as H1 H2 _ _ _ _.
    rewrite H1, H2 in Hdiff. tauto. }
  rewrite Hr. apply filter_In. split; [exact (L _ _ _ _ Hold Hfoot)|].
  apply negb_true_iff. apply Nat.eqb_neq in Hs.
  unfold footprint in Hfoot. rewrite B1, B2, B3, B4, B5 in Hfoot. simpl in Hfoot.
  destruct Hfoot as [<-|[<-|[<-|[<-|[<-|[<-|[<-|[]]]]]]]]; simpl;
    rewrite ?Hs, ?andb_false_r; reflexivity.
Qed.

Lemma pin_Live env this id n el w :
  (this < List.length (instances w))%nat ->
  WellFormed w -> Live w -> Live (pinHoverEditorToNode env this id n el w).
Proof.
  intros Hlt Hwf Hl. rewrite pin_after_cleanup.
  assert (Hgone : map_has id (trackingMap this (cleanup this id w)) = false)
    by (apply map_has_get, cleanup_removes).
  assert (Hlt0 : (this < List.length (instances (cleanup this id w)))%nat)
    by now rewrite cleanup_instances_length.
  destruct (cleanup_Live this id w Hwf Hl) as [L N].
  revert Hgone Hlt0 L N. generalize (cleanup this id w) as w0.
  intros w0 Hgone Hlt0 L N.
  destruct (@pin_fresh env this id n el w0 Hgone Hlt0) as (Hi & Hr & Hc & _).
  cbv zeta in Hi, Hr, Hc.
  split.
  - intros this' id' e' r He' Hfoot. rewrite Hr.
    unfold trackingMap in He' at 1. rewrite Hi in He'.
    destruct (Nat.eq_dec this' this) as [->|Hne].
    + rewrite nth_list_update in He'. apply Nat.ltb_lt in Hlt0. rewrite Hlt0 in He'.
      apply in_app_or in He'. destruct He' as [Hold|[Hnew|[]]].
      * apply in_or_app. left. exact (L _ _ _ _ Hold Hfoot).
      * inversion Hnew; subst. apply in_or_app. right. exact Hfoot.
    + rewrite nth_list_update_other in He' by congruence.
      apply in_or_app. left. exact (L _ _ _ _ He' Hfoot).
  - intros h. rewrite Hc. unfold upd.
    destruct (Nat.eqb h (nextHandle w0)); [reflexivity | apply N].
Qed.

Lemma step_Live env op w :
  callable w op -> WellFormed w -> Live w -> Live (step env op w).
Proof.
  intros Hcall Hwf Hl. destruct op; cbn [step callable] in *.
  - destruct Hl as [L N]. split; [|exact N].
    intros this id e r. rewrite construct_trackingMap. apply L.
  - now apply pin_Live.
  - now apply cleanup_Live.
  - unfold cleanupAll.
    apply (fold_left_invariant (fun a => WellFormed a /\ Live a)); [|tauto].
    intros a id [Ha Hla]. split; [now apply cleanup_WellFormed | now apply cleanup_Live].
  - eapply Quiet_Live; [apply runFrame_quiet | exact Hl].
  - eapply Quiet_Live; [|exact Hl].
    apply dispatch_quiet. intros; apply pollForDrag_quiet.
  - eapply Quiet_Live; [|exact Hl].
    apply dispatch_quiet. intros; apply schedule_quiet.
  - eapply Quiet_Live; [|exact Hl].
    apply dispatch_quiet. intros; apply schedule_quiet.
  - eapply Quiet_Live; [|exact Hl].
    apply dispatch_quiet. intros; apply onResize_quiet.
  - unfold dispatch.
    apply (fold_left_invariant (fun a => WellFormed a /\ Live a)); [|tauto].
    intros a r [Ha Hla]. destruct r; try tauto. unfold onMutation.
    destruct (negb _); [|tauto].
    split; [now apply closureCleanup_WellFormed | now apply closureCleanup_Live].
  - eapply Quiet_Live; [|exact Hl].
    apply dispatch_quiet. intros; apply refreshRectAndSchedule_quiet.
  - eapply Quiet_Live; [|exact Hl].
    apply dispatch_quiet. intros; apply refreshRectAndSchedule_quiet.
  - eapply Quiet_Live; [apply userMoves_quiet | exact Hl].
Qed.

Lemma ReachableVia_Live allowed w : ReachableVia allowed w -> Live w.
Proof.
  induction 1 as [|env op w Hre IH _ Hcall].
  - split; [|reflexivity]. intros [|?] ? ? ? [].
  - apply step_Live; [exact Hcall | exact (ReachableVia_WellFormed Hre) | exact IH].
Qed.

(** X14. [cleanup] is confined to its identifier.  In a world reached by
    any run of calls and host events, removals included, every tracked
    editor under another identifier or in another engine stays in its map
    with all of its registrations live, and no closure state changes. *)
Theorem cleanup_leaves_others
    (this : nat) (id : string) (this' : nat) (id' : string) (e' : TrackedEditor)
    (w : World) :
  Reachable w ->
  In (id', e') (trackingMap this' w) ->
  this' <> this \/ id' <> id ->
  In (id', e') (trackingMap this' (cleanup this id w)) /\
  (forall r, In r (footprint e') -> In r (registrations (cleanup this id w))) /\
  closures (cleanup this id w) = closures w.
Proof.
  intros Hre He' Hdiff.
  pose proof (ReachableVia_WellFormed Hre) as Hwf.
  pose proof (ReachableVia_Live _ w Hre) as Hl.
  assert (Hstay : In (id', e') (trackingMap this' (cleanup this id w))).
  { rewrite cleanup_trackingMap_always.
    destruct (Nat.eqb_spec this' this) as [->|]; [|exact He'].
    apply in_map_delete. split; [exact He' | tauto]. }
  split; [exact Hstay|]. split.
  - intros r Hr.
    destruct (cleanup_Live this id w Hwf Hl) as [L _].
    exact (L _ _ _ _ Hstay Hr).
  - unfold cleanup. destruct (map_get id (trackingMap this w)); reflexivity.
Qed.

Lemma cleanup_leaves_others_witness :
  Reachable sampleTwoViews /\
  In ("terminal-2"%string, sampleEditor2)
     (trackingMap 0 (cleanup 0 "terminal-1" sampleTwoViews)) /\
  In (Interval 2%nat 1%nat) (registrations (cleanup 0 "terminal-1" sampleTwoViews)).
Proof.
  assert (Hre : Reachable sampleTwoViews).
  { apply ReachableByPinUnpin_Reachable. unfold sampleTwoViews.
    apply (@run_ReachableVia notRemoval notRemovalb notRemovalb_sound);
      [constructor | vm_compute; reflexivity]. }
  assert (He : In ("terminal-2"%string, sampleEditor2) (trackingMap 0 sampleTwoViews))
    by (vm_compute; right; now left).
  destruct (cleanup_leaves_others 0%nat "terminal-1" 0%nat "terminal-2" sampleEditor2
              sampleTwoViews Hre He) as (Hstay & Hlive & _).
  - right. discriminate.
  - split; [exact Hre|]. split; [exact Hstay|].
    apply Hlive. unfold footprint, sampleEditor2. simpl. tauto.
Defined.

(** ** The removal observer *)

(** X15. A document mutation that detaches no observed panel changes
    nothing: while the panels are in the document the removal observer
    tears nothing down. *)
Theorem attached_panels_survive_mutation (env : Env) (w : World) :
  (forall o, In (MutationObserving o) (registrations w) ->
             bodyContains env (c_popoverEl (closures w o)) = true) ->
  step env DocumentMutated w = w.
Proof.
  intros Hattached. cbn [step]. apply dispatch_fixed.
  intros r h Hin Hsel. destruct r; try discriminate Hsel.
  injection Hsel as ->. unfold onMutation.
  now rewrite (Hattached h Hin).
Qed.

Lemma attached_panels_survive_mutation_witness :
  step (sampleEnv 1 120 true) DocumentMutated samplePositioned = samplePositioned.
Proof.
  apply (attached_panels_survive_mutation (sampleEnv 1 120 true) samplePositioned).
  intros o _. reflexivity.
Defined.

(** X16. The removal observer of one panel is confined to that panel.  In
    a world reached by any run of calls and host events, earlier removals
    included, whether or not the observer of a tracked panel tears its own
    panel down, every other tracked editor stays in its map with all of
    its registrations live. *)
Theorem removal_leaves_others
    (env : Env) (w : World) (this : nat) (id : string) (e : TrackedEditor)
    (this' : nat) (id' : string) (e' : TrackedEditor) :
  Reachable w ->
  map_get id (trackingMap this w) = Some e ->
  In (id', e') (trackingMap this' w) ->
  this' <> this \/ id' <> id ->
  In (id', e') (trackingMap this' (onMutation env (mutationObserver e) w)) /\
  (forall r, In r (footprint e') ->
             In r (registrations (onMutation env (mutationObserver e) w))).
Proof.
  intros Hre Hget He' Hdiff.
  pose proof (ReachableVia_WellFormed Hre) as Hwf.
  pose proof (ReachableVia_Live _ w Hre) as [L _].
  pose proof (in_map_get _ _ Hget) as He.
  assert (Hlive : forall r, In r (footprint e') -> In r (registrations w)).
  { intros r Hr. exact (L _ _ _ _ He' Hr). }
  unfold onMutation. destruct (negb _); [|now split].
  destruct (distinct_editors_distinct_handles w this id e this' id' e' Hwf He He' Hdiff)
    as (Hs & Htimer).
  pose proof Hwf as (_ & C & _).
  destruct (C _ _ _ He) as (A1 & A2 & A3 & A4 & A5 & _ & _ & _ & Hid).
  destruct (C _ _ _ He') as (B1 & B2 & B3 & B4 & B5 & _).
  unfold identity in Hid. injection Hid as Hthis Hterm Hnode Hel Hcy Hdrag.
  rewrite A2.
  destruct (closureCleanup_effect (state e) w) as (Hr & Hi). cbv zeta in Hr, Hi.
  rewrite Hthis, Hterm in Hi. rewrite Hnode, Hcy, Hdrag in Hr.
  split.
  - unfold trackingMap at 1. rewrite Hi.
    destruct (Nat.eq_dec this' this) as [->|Hne].
    + rewrite nth_list_update.
      destruct (Nat.ltb_spec this (List.length (instances w))) as [_|Hge].
      * apply in_map_delete. split; [exact He' | tauto].
      * rewrite trackingMap_out_of_range in He' by exact Hge. contradiction.
    + rewrite nth_list_update_other by congruence. exact He'.
  - intros r Hfoot. rewrite Hr. apply filter_In. split; [now apply Hlive|].
    pose proof (dropped_foreign e e' r A1 A2 A3 A4 A5 B1 B2 B3 B4 B5 Hs Htimer Hfoot)
      as Hd.
    unfold dropped in Hd. rewrite A1, A2, A3, A4, A5 in Hd.
    repeat (apply orb_false_elim in Hd; destruct Hd as [Hd ?]).
    apply negb_true_iff.
    repeat (apply orb_false_intro; [|first [assumption | now destruct r]]).
    assumption.
Qed.

Lemma removal_leaves_others_witness :
  Reachable sampleTwoViews /\
  In ("terminal-2"%string, sampleEditor2)
     (trackingMap 0 (onMutation (sampleEnv 1 120 false) 0%nat sampleTwoViews)) /\
  In (MutationObserving 1%nat)
     (registrations (onMutation (sampleEnv 1 120 false) 0%nat sampleTwoViews)).
Proof.
  assert (Hre : Reachable sampleTwoViews).
  { apply ReachableByPinUnpin_Reachable. unfold sampleTwoViews.
    apply (@run_ReachableVia notRemoval notRemovalb notRemovalb_sound);
      [constructor | vm_compute; reflexivity]. }
  assert (Hget : map_get "terminal-1" (trackingMap 0 sampleTwoViews) = Some sampleEditor)
    by (vm_compute; reflexivity).
  assert (He : In ("terminal-2"%string, sampleEditor2) (trackingMap 0 sampleTwoViews))
    by (vm_compute; right; now left).
  destruct (removal_leaves_others (sampleEnv 1 120 false) sampleTwoViews
              0%nat "terminal-1" sampleEditor 0%nat "terminal-2" sampleEditor2
              Hre Hget He) as (Hstay & Hlive).
  - right. discriminate.
  - split; [exact Hre|]. split; [exact Hstay|].
    apply Hlive. unfold footprint, sampleEditor2. simpl. tauto.
Defined.

(** ** Host events *)

Lemma schedule_keeps w :
  closures (scheduleSharedUpdate w) = closures w /\
  styles (scheduleSharedUpdate w) = styles w /\
  domLog (scheduleSharedUpdate w) = domLog w.
Proof. unfold scheduleSharedUpdate. destruct (updatePending w); repeat split. Qed.

Lemma onGraphChangeCb_requestsPass : requestsPass onGraphChangeCb.
Proof.
  intros h a. unfold onGraphChangeCb.
  destruct (schedule_keeps a) as (Hc & Hs & _).
  split; [apply schedule_quiet|]. split; [intros h'; now rewrite Hc|].
  split; [exact Hs | apply schedule_sets_pending].
Qed.

Lemma refreshRectAndSchedule_requestsPass env :
  requestsPass (refreshRectAndSchedule env).
Proof.
  intros h a. split; [apply refreshRectAndSchedule_quiet|].
  unfold refreshRectAndSchedule.
  set (a1 := set_closure h _ _).
  destruct (schedule_keeps a1) as (Hc & Hs & _).
  rewrite Hc, Hs. split; [|split; [reflexivity | apply schedule_sets_pending]].
  intros h'. subst a1. cbn [closures set_closure set_closures record].
  unfold upd. destruct (Nat.eqb_spec h' h) as [->|]; reflexivity.
Qed.

Lemma dispatch_requestsPass sel cb w :
  requestsPass cb ->
  (exists r h, In r (registrations w) /\ sel r = Some h) ->
  Quiet w (dispatch sel cb w) /\
  (forall h', c_state (closures (dispatch sel cb w) h') = c_state (closures w h')) /\
  styles (dispatch sel cb w) = styles w /\
  updatePending (dispatch sel cb w) = true.
Proof.
  intros Hcb (r & h & Hin & Hsel).
  split; [apply dispatch_quiet; intros h0 a; apply Hcb|].
  unfold dispatch. destruct (in_split _ _ Hin) as (l1 & l2 & ->).
  rewrite fold_left_app. cbn [fold_left]. rewrite Hsel.
  set (f := fun (w0 : World) (r0 : Registration) =>
              match sel r0 with Some h0 => cb h0 w0 | None => w0 end).
  assert (Hkeep : forall l a,
            (forall h', c_state (closures (fold_left f l a) h') = c_state (closures a h')) /\
            styles (fold_left f l a) = styles a /\
            (updatePending a = true -> updatePending (fold_left f l a) = true)).
  { assert (Hone : forall a r0,
              (forall h', c_state (closures (f a r0) h') = c_state (closures a h')) /\
              styles (f a r0) = styles a /\
              (updatePending a = true -> updatePending (f a r0) = true)).
    { intros a r0. unfold f. destruct (sel r0) as [h0|]; [|repeat split; auto].
      destruct (Hcb h0 a) as (_ & C1 & C2 & C3). repeat split; auto. }
    induction l as [|r0 l IH]; intros a; [repeat split; auto|].
    cbn [fold_left]. destruct (IH (f a r0)) as (I1 & I2 & I3).
    destruct (Hone a r0) as (O1 & O2 & O3).
    split; [intros h'; now rewrite I1, O1|].
    split; [now rewrite I2, O2 | auto]. }
  destruct (Hkeep l1 w) as (K1 & K2 & _).
  destruct (Hcb h (fold_left f l1 w)) as (_ & C1 & C2 & C3).
  destruct (Hkeep l2 (cb h (fold_left f l1 w))) as (L1 & L2 & L3).
  split; [intros h'; now rewrite L1, C1, K1|].
  split; [now rewrite L2, C2, K2 | now apply L3].
Qed.

Lemma footprint_live w this id e r :
  Reachable w -> map_get id (trackingMap this w) = Some e ->
  In r (footprint e) -> In r (registrations w).
Proof.
  intros Hre Hget Hr. pose proof (ReachableVia_Live _ w Hre) as [L _].
  exact (L _ _ _ _ (in_map_get _ _ Hget) Hr).
Qed.

Lemma footprint_members e :
  In (ResizeObserving (resizeObserver e) (popoverEl e)) (footprint e) /\
  In (MutationObserving (mutationObserver e)) (footprint e) /\
  In (ContainerResizeObserving (containerResizeObserver e) (node_cy (node e)))
     (footprint e) /\
  In (WindowResize (windowResizeHandler e)) (footprint e) /\
  In (OnViewport (node_cy (node e)) (onGraphChange e)) (footprint e) /\
  In (OnPosition (node e) (onGraphChange e)) (footprint e) /\
  In (Interval (dragPollInterval e) (state e)) (footprint e).
Proof. unfold footprint. simpl. tauto. Qed.

(** An event that notifies a tracked editor is a dispatch of a callback
    that only requests a pass, and it reaches at least one handler. *)
Lemma notifies_dispatch env w this id e op :
  Reachable w -> map_get id (trackingMap this w) = Some e ->
  notifies e op ->
  exists sel cb,
    step env op w = dispatch sel cb w /\ requestsPass cb /\
    exists r h, In r (registrations w) /\ sel r = Some h.
Proof.
  intros Hre Hget Hop.
  destruct (footprint_members e) as (_ & _ & F3 & F4 & F5 & F6 & _).
  destruct Hop as [-> | [-> | [-> | ->]]]; cbn [step]; do 2 eexists;
    (split; [reflexivity|]);
    (split; [first [exact onGraphChangeCb_requestsPass
                   | exact (refreshRectAndSchedule_requestsPass env)]|]).
  - exists (OnViewport (node_cy (node e)) (onGraphChange e)), (onGraphChange e).
    split; [exact (footprint_live w this id e _ Hre Hget F5)|].
    now rewrite Nat.eqb_refl.
  - exists (OnPosition (node e) (onGraphChange e)), (onGraphChange e).
    split; [exact (footprint_live w this id e _ Hre Hget F6)|].
    now rewrite node_eqb_refl.
  - exists (ContainerResizeObserving (containerResizeObserver e) (node_cy (node e))),
           (containerResizeObserver e).
    split; [exact (footprint_live w this id e _ Hre Hget F3)|].
    now rewrite Nat.eqb_refl.
  - exists (WindowResize (windowResizeHandler e)), (windowResizeHandler e).
    split; [exact (footprint_live w this id e _ Hre Hget F4) | reflexivity].
Qed.

Lemma runFrame_single env w i :
  frameCallbacks w = [i] ->
  runFrame env w = sharedUpdate env (set_frames (sharedRAFId w) [] (nextFrameId w) w).
Proof. intros Hq. unfold runFrame. now rewrite Hq. Qed.

Lemma pending_queue w :
  queueConsistent w -> updatePending w = true -> exists i, frameCallbacks w = [i].
Proof.
  unfold queueConsistent. intros Hq Hp. rewrite Hp in Hq.
  destruct (frameCallbacks w) as [|i [|? ?]]; try discriminate. now exists i.
Qed.

(** X17. A viewport change or a node move does not touch the DOM.  In a
    world reached by any run of calls and host events, a change of the
    viewport of a tracked editor's graph view, or a move of its node,
    changes no style, makes no DOM access and changes no closure, tracking
    map or registration; it leaves the pending flag set with exactly one
    frame callback queued. *)
Theorem graph_change_only_schedules
    (env : Env) (w : World) (this : nat) (id : string) (e : TrackedEditor) (op : Op) :
  Reachable w ->
  map_get id (trackingMap this w) = Some e ->
  op = ViewportChanged (node_cy (node e)) \/ op = NodeMoved (node e) ->
  styles (step env op w) = styles w /\
  domLog (step env op w) = domLog w /\
  closures (step env op w) = closures w /\
  instances (step env op w) = instances w /\
  registrations (step env op w) = registrations w /\
  updatePending (step env op w) = true /\
  List.length (frameCallbacks (step env op w)) = 1%nat.
Proof.
  intros Hre Hget Hop.
  assert (Hn : notifies e op) by (unfold notifies; tauto).
  destruct (notifies_dispatch env w this id e op Hre Hget Hn)
    as (sel & cb & Hstep & Hcb & Hex).
  destruct (dispatch_requestsPass sel cb w Hcb Hex) as ((Hshape & Hq) & _ & Hs & Hp).
  rewrite <- Hstep in *.
  destruct Hshape as (Hi & Hr & _).
  pose proof (ReachableVia_WellFormed Hre) as (_ & _ & _ & _ & Hqc).
  specialize (Hq Hqc). unfold queueConsistent in Hq. rewrite Hp in Hq.
  repeat split; try assumption.
  - destruct Hop as [-> | ->]; cbn [step]; unfold dispatch;
      apply (fold_left_invariant (fun a => domLog a = domLog w)); try reflexivity;
      intros a r Ha; destruct r; try exact Ha;
      match goal with |- context [if ?b then _ else _] => destruct b end;
      try exact Ha; unfold onGraphChangeCb;
      destruct (schedule_keeps a) as (_ & _ & Hl); now rewrite Hl.
  - destruct Hop as [-> | ->]; cbn [step]; unfold dispatch;
      apply (fold_left_invariant (fun a => closures a = closures w)); try reflexivity;
      intros a r Ha; destruct r; try exact Ha;
      match goal with |- context [if ?b then _ else _] => destruct b end;
      try exact Ha; unfold onGraphChangeCb;
      destruct (schedule_keeps a) as (Hc & _ & _); now rewrite Hc.
Qed.

(** X18. The panel follows the graph.  In a world reached by any run of
    calls and host events, in which all tracked editors follow one graph
    view and position distinct elements, when a host event notifies a
    tracked editor (viewport change, node move, container resize or window
    resize) and the next frame then runs, the panel is fixed at the node's
    viewport origin of that moment plus its stored offset, with its stored
    size, all converted at the zoom of that moment; the pending flag is
    clear again. *)
Theorem notification_then_frame_positions_panel
    (env env' : Env) (w : World) (this : nat) (id : string) (e : TrackedEditor)
    (op : Op) :
  Reachable w ->
  map_get id (trackingMap this w) = Some e ->
  sharedGraphView w -> distinctPanels w ->
  notifies e op ->
  let cy := node_cy (node e) in
  let st := c_state (closures w (state e)) in
  styles (run [(env, op); (env', Frame)] w) (popoverEl e) =
    {| s_position := "fixed";
       s_left := Some (left (containerRect env' cy) + x1 (renderedBoundingBox env' (node e))
                       + graphToScreen (offsetX st) (zoom env' cy));
       s_top := Some (top (containerRect env' cy) + y1 (renderedBoundingBox env' (node e))
                      + graphToScreen (offsetY st) (zoom env' cy));
       s_width := Some (graphToScreen (width st) (zoom env' cy));
       s_height := Some (graphToScreen (height st) (zoom env' cy));
       s_zIndex := "1000" |} /\
  updatePending (run [(env, op); (env', Frame)] w) = false.
Proof.
  intros Hre Hget Hview Hd Hn cy st.
  destruct (notifies_dispatch env w this id e op Hre Hget Hn)
    as (sel & cb & Hstep & Hcb & Hex).
  destruct (dispatch_requestsPass sel cb w Hcb Hex) as ((Hshape & Hq) & Hst & _ & Hp).
  rewrite <- Hstep in *.
  set (w1 := step env op w) in *.
  pose proof (ReachableVia_WellFormed Hre) as (_ & _ & _ & _ & Hqc).
  destruct (pending_queue w1 (Hq Hqc) Hp) as (i & Hi).
  change (run [(env, op); (env', Frame)] w) with (runFrame env' w1).
  rewrite (runFrame_single env' w1 i Hi).
  set (W := set_frames (sharedRAFId w1) [] (nextFrameId w1) w1).
  destruct Hshape as (Hins & _).
  assert (Hall : allEditors W = allEditors w).
  { unfold allEditors, W. cbn [instances set_frames]. now rewrite Hins. }
  assert (He : In e (allEditors W)).
  { rewrite Hall. apply in_allEditors. exists this, id. now apply in_map_get. }
  assert (Hview' : sharedGraphView W) by (unfold sharedGraphView; now rewrite Hall).
  assert (Hd' : distinctPanels W) by (unfold distinctPanels; now rewrite Hall).
  split; [|apply sharedUpdate_frame].
  rewrite (@sharedUpdate_style env' W e He Hview' Hd').
  unfold styleOf, updateFor, W. cbn [closures set_frames u_x u_y u_width u_height].
  rewrite (Hst (state e)). reflexivity.
Qed.

Lemma samplePositioned_reachable : ReachableByPinUnpin samplePositioned.
Proof.
  unfold samplePositioned.
  apply (@run_ReachableVia notRemoval notRemovalb notRemovalb_sound);
    [exact samplePinned_reachable | vm_compute; reflexivity].
Qed.

Lemma samplePositioned_one_panel : allEditors samplePositioned = [sampleEditor].
Proof. vm_compute. reflexivity. Qed.

Lemma graph_change_only_schedules_witness :
  Reachable samplePositioned /\
  updatePending samplePositioned = false /\
  styles (step (sampleEnv 2 120 true) (ViewportChanged 0%nat) samplePositioned)
    = styles samplePositioned /\
  updatePending (step (sampleEnv 2 120 true) (ViewportChanged 0%nat) samplePositioned)
    = true.
Proof.
  assert (Hre : Reachable samplePositioned)
    by exact (ReachableByPinUnpin_Reachable samplePositioned_reachable).
  split; [exact Hre|]. split; [vm_compute; reflexivity|].
  destruct (graph_change_only_schedules (sampleEnv 2 120 true) samplePositioned
              0%nat "terminal-1" sampleEditor (ViewportChanged 0%nat)
              Hre)
    as (Hs & _ & _ & _ & _ & Hp & _).
  - vm_compute; reflexivity.
  - left. reflexivity.
  - split; [exact Hs | exact Hp].
Defined.

Lemma notification_then_frame_positions_panel_witness :
  Reachable samplePositioned /\
  s_left (styles (run [(sampleEnv 2 120 true, ViewportChanged 0%nat);
                       (sampleEnv 2 136 true, Frame)] samplePositioned) 5%nat)
  = Some (30 + 20 + graphToScreen 10 2).
Proof.
  assert (Hre : Reachable samplePositioned)
    by exact (ReachableByPinUnpin_Reachable samplePositioned_reachable).
  split; [exact Hre|].
  assert (Hget : map_get "terminal-1" (trackingMap 0 samplePositioned) = Some sampleEditor)
    by (vm_compute; reflexivity).
  assert (Hview : sharedGraphView samplePositioned).
  { unfold sharedGraphView. rewrite samplePositioned_one_panel.
    intros e1 e2 [<-|[]] [<-|[]]. reflexivity. }
  assert (Hd : distinctPanels samplePositioned).
  { unfold distinctPanels. rewrite samplePositioned_one_panel.
    repeat constructor. simpl. tauto. }
  assert (Hn : notifies sampleEditor (ViewportChanged 0%nat)) by (left; reflexivity).
  destruct (notification_then_frame_positions_panel
              (sampleEnv 2 120 true) (sampleEnv 2 136 true) samplePositioned
              0%nat "terminal-1" sampleEditor (ViewportChanged 0%nat)
              Hre Hget Hview Hd Hn) as (Hs & _).
  cbn [sampleEditor pinnedEditor popoverEl] in Hs. rewrite Hs.
  vm_compute. reflexivity.
Defined.

(** ** Pinning is seamless *)

Lemma pin_pending env this id n el w :
  (this < List.length (instances w))%nat ->
  updatePending (pinHoverEditorToNode env this id n el w) = true.
Proof.
  intros Hlt. rewrite pin_after_cleanup.
  assert (Hgone : map_has id (trackingMap this (cleanup this id w)) = false)
    by (apply map_has_get, cleanup_removes).
  assert (Hlt0 : (this < List.length (instances (cleanup this id w)))%nat)
    by now rewrite cleanup_instances_length.
  now destruct (@pin_fresh env this id n el (cleanup this id w) Hgone Hlt0)
    as (_ & _ & _ & _ & _ & _ & Hp & _).
Qed.

(** X19. Pinning does not move the panel, in exact arithmetic (numbers
    are exact rationals, equality is equality of rationals).  Take a world
    reached by any run and a pin call on a constructed engine after which
    all tracked editors follow one graph view and position distinct
    elements.  When the frame that follows the call runs in the same
    surroundings, at a non-zero zoom, the panel is written at a position
    equal to the screen position it had when it was pinned, with a width
    equal to its pixel width and a height equal to 1.5 times its pixel
    height. *)
Theorem pin_then_frame_keeps_panel_in_place
    (env : Env) (w : World) (this : nat) (id : string) (n : NodeSingular) (el : ElId) :
  Reachable w ->
  (this < List.length (instances w))%nat ->
  ~ zoom env (node_cy n) == 0 ->
  sharedGraphView (pinHoverEditorToNode env this id n el w) ->
  distinctPanels (pinHoverEditorToNode env this id n el w) ->
  exists x y wd ht,
    styles (run [(env, Pin this id n el); (env, Frame)] w) el =
      {| s_position := "fixed"; s_left := Some x; s_top := Some y;
         s_width := Some wd; s_height := Some ht; s_zIndex := "1000" |} /\
    x == left (getBoundingClientRect env el) /\
    y == top (getBoundingClientRect env el) /\
    wd == inject_Z (offsetWidth env el) /\
    ht == inject_Z (offsetHeight env el) * (3 # 2).
Proof.
  intros Hre Hlt Hz Hview Hd.
  assert (Hre1 : Reachable (pinHoverEditorToNode env this id n el w)).
  { exact (@reach_step (fun _ => True) env (Pin this id n el) w Hre I Hlt). }
  pose proof (ReachableVia_WellFormed Hre1) as (_ & _ & _ & _ & Hqc).
  pose proof (pin_pending env this id n el w Hlt) as Hp.
  destruct (@pin_result env this id n el w Hlt) as (Hget & Hcl & _ & _).
  assert (Hrun : run [(env, Pin this id n el); (env, Frame)] w =
                 runFrame env (pinHoverEditorToNode env this id n el w))
    by reflexivity.
  rewrite Hrun. clear Hrun Hre1.
  revert Hview Hd Hqc Hp Hget Hcl.
  generalize (pinHoverEditorToNode env this id n el w) as w1.
  intros w1 Hview Hd Hqc Hp Hget Hcl.
  destruct (pending_queue w1 Hqc Hp) as (i & Hi).
  rewrite (runFrame_single env w1 i Hi).
  set (new := pinnedEditor n el (nextHandle w) (nextTimer w)) in *.
  assert (Hall : allEditors (set_frames (sharedRAFId w1) [] (nextFrameId w1) w1)
                 = allEditors w1) by reflexivity.
  assert (He : In new (allEditors (set_frames (sharedRAFId w1) [] (nextFrameId w1) w1))).
  { rewrite Hall. apply in_allEditors. exists this, id. now apply in_map_get. }
  assert (Hview' : sharedGraphView (set_frames (sharedRAFId w1) [] (nextFrameId w1) w1))
    by (unfold sharedGraphView; now rewrite Hall).
  assert (Hd' : distinctPanels (set_frames (sharedRAFId w1) [] (nextFrameId w1) w1))
    by (unfold distinctPanels; now rewrite Hall).
  pose proof (@sharedUpdate_style env _ new He Hview' Hd') as Hs.
  change (popoverEl new) with el in Hs. rewrite Hs.
  unfold styleOf, updateFor. cbn [closures set_frames u_x u_y u_width u_height].
  change (state new) with (nextHandle w). change (node new) with n.
  rewrite Hcl.
  cbn [pinnedClosure c_state initialState offsetX offsetY width height].
  do 4 eexists. split; [reflexivity|].
  unfold graphToScreen, screenToGraph. repeat split; field; exact Hz.
Qed.

Lemma pin_then_frame_keeps_panel_in_place_witness :
  Reachable sampleEngine /\
  exists x y wd ht,
    styles (run [(sampleEnv 2 0 true, Pin 0 "terminal-1" sampleNode 5%nat);
                 (sampleEnv 2 0 true, Frame)] sampleEngine) 5%nat =
      {| s_position := "fixed"; s_left := Some x; s_top := Some y;
         s_width := Some wd; s_height := Some ht; s_zIndex := "1000" |} /\
    x == 60 /\ y == 70 /\ wd == 200 /\ ht == 150.
Proof.
  assert (Hre : Reachable sampleEngine).
  { apply (@reach_step (fun _ => True) (sampleEnv 1 0 true) Construct initialWorld);
      [constructor | exact I | exact I]. }
  assert (Hall : allEditors (pinHoverEditorToNode (sampleEnv 2 0 true) 0 "terminal-1"
                               sampleNode 5%nat sampleEngine) = [sampleEditor])
    by (vm_compute; reflexivity).
  split; [exact Hre|].
  destruct (pin_then_frame_keeps_panel_in_place (sampleEnv 2 0 true) sampleEngine
              0%nat "terminal-1" sampleNode 5%nat Hre)
    as (x & y & wd & ht & Hs & Hx & Hy & Hw & Hh).
  - vm_compute. lia.
  - vm_compute. discriminate.
  - unfold sharedGraphView. rewrite Hall. intros e1 e2 [<-|[]] [<-|[]]. reflexivity.
  - unfold distinctPanels. rewrite Hall. repeat constructor. simpl. tauto.
  - exists x, y, wd, ht. split; [exact Hs|].
    repeat split; [rewrite Hx | rewrite Hy | rewrite Hw | rewrite Hh];
      vm_compute; reflexivity.
Defined.

(** ** Resize events and the cache *)

Lemma refresh_closure env h0 a h :
  closures (refreshRectAndSchedule env h0 a) h =
  if Nat.eqb h h0
  then with_cache (containerRect env (c_cy (closures a h0))) (now env) (closures a h0)
  else closures a h.
Proof.
  unfold refreshRectAndSchedule.
  set (a1 := set_closure h0 _ _).
  destruct (schedule_keeps a1) as (Hc & _). rewrite Hc.
  reflexivity.
Qed.

Lemma dispatch_refresh env sel w h :
  (exists r, In r (registrations w) /\ sel r = Some h) ->
  c_cachedContainerRect (closures (dispatch sel (refreshRectAndSchedule env) w) h) =
    containerRect env (c_cy (closures w h)) /\
  c_lastRectUpdate (closures (dispatch sel (refreshRectAndSchedule env) w) h) = now env.
Proof.
  intros (r & Hin & Hsel).
  unfold dispatch. destruct (in_split _ _ Hin) as (l1 & l2 & ->).
  rewrite fold_left_app. cbn [fold_left]. rewrite Hsel.
  set (f := fun (w0 : World) (r0 : Registration) =>
              match sel r0 with
              | Some h0 => refreshRectAndSchedule env h0 w0
              | None => w0
              end).
  set (cy := c_cy (closures w h)).
  assert (Hcy : forall l a, c_cy (closures a h) = cy ->
                            c_cy (closures (fold_left f l a) h) = cy).
  { intros l. apply (fold_left_invariant (fun a => c_cy (closures a h) = cy)).
    intros a r0 Ha. unfold f.
    destruct (sel r0) as [h0|]; [|exact Ha].
    rewrite refresh_closure. destruct (Nat.eqb_spec h h0) as [<-|]; exact Ha. }
  assert (Hfresh : forall l a,
            (c_cy (closures a h) = cy /\
             c_cachedContainerRect (closures a h) = containerRect env cy /\
             c_lastRectUpdate (closures a h) = now env) ->
            (c_cy (closures (fold_left f l a) h) = cy /\
             c_cachedContainerRect (closures (fold_left f l a) h) = containerRect env cy /\
             c_lastRectUpdate (closures (fold_left f l a) h) = now env)).
  { intros l.
    apply (fold_left_invariant
             (fun a => c_cy (closures a h) = cy /\
                       c_cachedContainerRect (closures a h) = containerRect env cy /\
                       c_lastRectUpdate (closures a h) = now env)).
    intros a r0 (H1 & H2 & H3). unfold f.
    destruct (sel r0) as [h0|]; [|auto].
    rewrite refresh_closure. destruct (Nat.eqb_spec h h0) as [<-|]; [|auto].
    cbn [with_cache c_cy c_cachedContainerRect c_lastRectUpdate].
    rewrite H1. auto. }
  pose proof (Hcy l1 w eq_refl) as H1.
  destruct (Hfresh l2 (refreshRectAndSchedule env h (fold_left f l1 w))) as (_ & H2 & H3).
  - rewrite refresh_closure, Nat.eqb_refl.
    cbn [with_cache c_cy c_cachedContainerRect c_lastRectUpdate].
    rewrite H1. auto.
  - split; assumption.
Qed.

(** X20. A resize of the container or of the window refreshes the cached
    container rectangle at once, without waiting for the 300 ms window.
    In a world reached by any run of calls and host events, after a resize
    of a tracked editor's container or of the window the cache of that
    editor holds the container rectangle of that moment, whatever it held
    before and however recent it was; a tick within the next 300 ms uses
    it without reading the DOM, the editor state is untouched and a pass
    is pending. *)
Theorem resize_refreshes_cache
    (env env' : Env) (w : World) (this : nat) (id : string) (e : TrackedEditor)
    (op : Op) :
  Reachable w ->
  map_get id (trackingMap this w) = Some e ->
  op = ContainerResized (node_cy (node e)) \/ op = WindowResized ->
  (now env' - now env <= 300)%Z ->
  c_cachedContainerRect (closures (step env op w) (state e)) =
    containerRect env (node_cy (node e)) /\
  getContainerRect env' (state e) (step env op w) =
    (containerRect env (node_cy (node e)), step env op w) /\
  c_state (closures (step env op w) (state e)) = c_state (closures w (state e)) /\
  updatePending (step env op w) = true.
Proof.
  intros Hre Hget Hop Hsoon.
  pose proof (ReachableVia_WellFormed Hre) as (_ & C & _).
  destruct (C _ _ _ (in_map_get _ _ Hget)) as (_ & _ & A3 & A4 & _ & _ & _ & _ & Hid).
  unfold identity in Hid. injection Hid as _ _ _ _ Hcy _.
  assert (Hn : notifies e op) by (unfold notifies; tauto).
  destruct (notifies_dispatch env w this id e op Hre Hget Hn)
    as (sel & cb & Hstep & Hcb & Hex).
  destruct (dispatch_requestsPass sel cb w Hcb Hex) as (_ & Hst & _ & Hp).
  rewrite <- Hstep in Hst, Hp.
  destruct (footprint_members e) as (_ & _ & F3 & F4 & _).
  assert (Hcache : c_cachedContainerRect (closures (step env op w) (state e)) =
                     containerRect env (node_cy (node e)) /\
                   c_lastRectUpdate (closures (step env op w) (state e)) = now env).
  { rewrite <- Hcy.
    destruct Hop as [-> | ->]; cbn [step]; apply dispatch_refresh.
    - exists (ContainerResizeObserving (containerResizeObserver e) (node_cy (node e))).
      split; [exact (footprint_live w this id e _ Hre Hget F3)|].
      now rewrite Nat.eqb_refl, A3.
    - exists (WindowResize (windowResizeHandler e)).
      split; [exact (footprint_live w this id e _ Hre Hget F4)|].
      now rewrite A4. }
  destruct Hcache as (Hrect & Hlast).
  split; [exact Hrect|]. split; [|split; [apply Hst | exact Hp]].
  unfold getContainerRect. rewrite Hlast, Hrect.
  destruct (Z.gtb_spec (now env' - now env) 300); [lia | reflexivity].
Qed.

Lemma resize_refreshes_cache_witness :
  Reachable samplePositioned /\
  c_cachedContainerRect (closures samplePositioned 0%nat) = {| left := 30; top := 40 |} /\
  c_cachedContainerRect
    (closures (step (sampleMovedEnv 50) WindowResized samplePositioned) 0%nat)
  = {| left := 100; top := 40 |} /\
  getContainerRect (sampleEnv 1 60 true) 0%nat
    (step (sampleMovedEnv 50) WindowResized samplePositioned)
  = ({| left := 100; top := 40 |},
     step (sampleMovedEnv 50) WindowResized samplePositioned) /\
  c_cachedContainerRect
    (closures (step (sampleMovedEnv 50) (ContainerResized 0%nat) samplePositioned) 0%nat)
  = {| left := 100; top := 40 |}.
Proof.
  assert (Hre : Reachable samplePositioned)
    by exact (ReachableByPinUnpin_Reachable samplePositioned_reachable).
  assert (Hget : map_get "terminal-1" (trackingMap 0 samplePositioned) = Some sampleEditor)
    by (vm_compute; reflexivity).
  assert (Hsoon : (now (sampleEnv 1 60 true) - now (sampleMovedEnv 50) <= 300)%Z)
    by (vm_compute; discriminate).
  split; [exact Hre|]. split; [vm_compute; reflexivity|].
  destruct (resize_refreshes_cache (sampleMovedEnv 50) (sampleEnv 1 60 true)
              samplePositioned 0%nat "terminal-1" sampleEditor WindowResized
              Hre Hget (or_intror eq_refl) Hsoon) as (Hcache & Huse & _).
  destruct (resize_refreshes_cache (sampleMovedEnv 50) (sampleEnv 1 60 true)
              samplePositioned 0%nat "terminal-1" sampleEditor (ContainerResized 0%nat)
              Hre Hget (or_introl eq_refl) Hsoon) as (Hcache' & _).
  split; [exact Hcache|]. split; [exact Huse | exact Hcache'].
Defined.

(** ** Invariants of every run *)

(** X21. Whatever calls and host events have happened, at most one frame
    callback is queued, and one is queued exactly when the pending flag is
    set. *)
Theorem reachable_queue_matches_flag (w : World) :
  Reachable w ->
  List.length (frameCallbacks w) = (if updatePending w then 1 else 0)%nat /\
  (List.length (frameCallbacks w) <= 1)%nat.
Proof.
  intros Hre. pose proof (ReachableVia_WellFormed Hre) as (_ & _ & _ & _ & Hq).
  unfold queueConsistent in Hq. split; [exact Hq|].
  rewrite Hq. destruct (updatePending w); lia.
Qed.

Lemma reachable_queue_matches_flag_witness :
  Reachable sampleDragged /\
  List.length (frameCallbacks sampleDragged) =
    (if updatePending sampleDragged then 1 else 0)%nat.
Proof.
  split; [exact sampleDragged_reachable|].
  exact (proj1 (reachable_queue_matches_flag sampleDragged sampleDragged_reachable)).
Defined.

(** X22. Whatever calls and host events have happened, the keys of every
    tracking map are distinct, every tracked editor has a started timer
    (its identifier is not the placeholder 0), and two different tracked
    entries never share a closure handle or a timer identifier. *)
Theorem reachable_editors_are_separate (w : World) :
  Reachable w ->
  (forall this, NoDup (map_keys (trackingMap this w))) /\
  (forall this id e,
     In (id, e) (trackingMap this w) -> (0 < dragPollInterval e)%nat) /\
  (forall this id e this' id' e',
     In (id, e) (trackingMap this w) -> In (id', e') (trackingMap this' w) ->
     this' <> this \/ id' <> id ->
     state e' <> state e /\ dragPollInterval e' <> dragPollInterval e).
Proof.
  intros Hre.
  pose proof (ReachableVia_WellFormed Hre) as Hwf.
  split; [exact (proj1 Hwf)|]. split.
  - intros this id e He. destruct Hwf as (_ & C & _).
    now destruct (C _ _ _ He) as (_ & _ & _ & _ & _ & _ & Hpos & _).
  - intros this id e this' id' e' He He' Hdiff.
    exact (distinct_editors_distinct_handles w this id e this' id' e' Hwf He He' Hdiff).
Qed.

Lemma reachable_editors_are_separate_witness :
  (Reachable samplePinned /\
   NoDup (map_keys (trackingMap 0 samplePinned)) /\
   (0 < dragPollInterval sampleEditor)%nat) /\
  (Reachable sampleTwoViews /\
   NoDup (map_keys (trackingMap 0 sampleTwoViews)) /\
   state sampleEditor2 <> state sampleEditor /\
   dragPollInterval sampleEditor2 <> dragPollInterval sampleEditor).
Proof.
  assert (Hre1 : Reachable samplePinned)
    by exact (ReachableByPinUnpin_Reachable samplePinned_reachable).
  assert (Hre : Reachable sampleTwoViews).
  { apply ReachableByPinUnpin_Reachable. unfold sampleTwoViews.
    apply (@run_ReachableVia notRemoval notRemovalb notRemovalb_sound);
      [constructor | vm_compute; reflexivity]. }
  split.
  - destruct (reachable_editors_are_separate samplePinned Hre1) as (Hk & Hpos & _).
    split; [exact Hre1|]. split; [exact (Hk 0%nat)|].
    apply (Hpos 0%nat "terminal-1"%string sampleEditor). vm_compute. now left.
  - destruct (reachable_editors_are_separate sampleTwoViews Hre) as (Hk & _ & Hsep).
    split; [exact Hre|]. split; [exact (Hk 0%nat)|].
    apply (Hsep 0%nat "terminal-1"%string sampleEditor 0%nat "terminal-2"%string
             sampleEditor2).
    + vm_compute. now left.
    + vm_compute. right. now left.
    + right. discriminate.
Defined.

(** X23. The removal path keeps the timer, for every tracked panel: when
    the removal observer finds the panel's element gone, the identifier
    leaves the tracking map and every registration of the editor except
    its interval timer is dropped; the timer stays live, because the
    closure hands [clearInterval] a variable that is never assigned. *)
Theorem removal_observer_keeps_timer
    (env : Env) (w : World) (this : nat) (id : string) (e : TrackedEditor) :
  ReachableByPinUnpin w ->
  map_get id (trackingMap this w) = Some e ->
  bodyContains env (popoverEl e) = false ->
  map_get id (trackingMap this (onMutation env (mutationObserver e) w)) = None /\
  In (Interval (dragPollInterval e) (state e))
     (registrations (onMutation env (mutationObserver e) w)) /\
  (forall r, In r (footprint e) ->
             r <> Interval (dragPollInterval e) (state e) ->
             ~ In r (registrations (onMutation env (mutationObserver e) w))).
Proof.
  intros Hre Hget Hgone.
  exact (@removal_leaves_poll_running env w this id e Hre Hget Hgone).
Qed.

Lemma removal_observer_keeps_timer_witness :
  ReachableByPinUnpin samplePositioned /\
  map_get "terminal-1"
    (trackingMap 0 (onMutation (sampleEnv 1 120 false) 0%nat samplePositioned)) = None /\
  In (Interval 1%nat 0%nat)
     (registrations (onMutation (sampleEnv 1 120 false) 0%nat samplePositioned)).
Proof.
  assert (Hget : map_get "terminal-1" (trackingMap 0 samplePositioned) = Some sampleEditor)
    by (vm_compute; reflexivity).
  split; [exact samplePositioned_reachable|].
  destruct (removal_observer_keeps_timer (sampleEnv 1 120 false) samplePositioned
              0%nat "terminal-1" sampleEditor samplePositioned_reachable Hget eq_refl)
    as (Hgone & Htimer & _).
  split; [exact Hgone | exact Htimer].
Defined.
